(** * run: a supervised runnable with recurrence, restart, timeout and
      panic containment

    A shallow embedding of package [run] (options.go, runnable.go, panic.go,
    instance.go) and the properties of its execution engine.

    Conventions of the embedding:
    - [uint64] and [uint] values are integers in [Z]; [i.runs++] and
      [i.failedRuns++] wrap around modulo [2^64] as in Go.
    - [time.Duration] is the signed number of nanoseconds, [time.Time] an
      instant in nanoseconds; both are integers in [Z].
    - a nilable Go value (pointer, func, interface) is an [option].
    - what the goroutine of [runCh] does is recorded as the list of its
      observable events, in program order. *)

From Stdlib Require Import ZArith String List Bool Lia DecimalString.
Import ListNotations.
Local Open Scope Z_scope.

(** ** Values, errors and panics *)

Definition Duration := Z.
Definition Time := Z.

Definition uint64_modulus : Z := 2 ^ 64.

(** [x++] on a [uint64]. *)
Definition incr64 (x : Z) : Z := (x + 1) mod uint64_modulus.

(** The [interface{}] values a goroutine panics with: what user code
    passes to [panic], the nil interface of [panic(nil)] included, and the
    [runtime.Error] values the Go runtime panics with itself, known by the
    text of their [Error] method.  The program is read with the meaning
    [panic(nil)] had when it was written (before Go 1.21): the value that
    [recover] returns for it is nil. *)
Inductive value : Type :=
| VNil
| VString (s : string)
| VInt (n : Z)
| VRuntimeError (text : string).

(** [v == nil] on an interface value. *)
Definition is_nil (v : value) : bool :=
  match v with
  | VNil => true
  | _ => false
  end.

(** [fmt.Sprintf("%v", v)]. *)
Definition fmt_v (v : value) : string :=
  match v with
  | VNil => "<nil>"
  | VString s => s
  | VInt n => NilZero.string_of_int (Z.to_int n)
  | VRuntimeError text => text
  end.

(** The panic of the Go runtime on a call through a nil func value. *)
Definition nilFuncCall : value :=
  VRuntimeError
    "runtime error: invalid memory address or nil pointer dereference".

(** The panic of the Go runtime when [make] is asked for a channel whose
    buffer it cannot allocate. *)
Definition makechanPanic : value :=
  VRuntimeError "makechan: size out of range".

(** panic.go: [const NilRunnable]. *)
Definition NilRunnable : string := "attempted to run a nil Runnable".

(** The non-nil [error] values that travel on the error channel:
    an error returned by a runnable, known by its text; [RunnablePanic] of
    panic.go; and the two errors of package [context]. *)
Inductive error : Type :=
| ErrorString (s : string)
| RunnablePanic (Value : value)
| Canceled
| DeadlineExceeded.

(** The [Error] method; for [RunnablePanic] it is
    [fmt.Sprintf("runnable panic: %v", p.Value)]. *)
Definition Error (e : error) : string :=
  match e with
  | ErrorString s => s
  | RunnablePanic Value => ("runnable panic: " ++ fmt_v Value)%string
  | Canceled => "context canceled"
  | DeadlineExceeded => "context deadline exceeded"
  end.

(** How a Go call ends: it returns a value or it panics. *)
Inductive outcome (A : Type) : Type :=
| Return (a : A)
| Panic (v : value).
Arguments Return {A} a.
Arguments Panic {A} v.

(** ** Contexts *)

(** A context is the caller's own, known by its deadline if it has one, or
    a child made by package [context]: a cancel context (the result of
    [context.WithCancel]) or a timer context with a deadline of its own. *)
Inductive Context : Type :=
| Caller (deadline : option Time)
| WithCancel (parent : Context)
| timerCtx (parent : Context) (deadline : Time).

(** [ctx.Deadline()]: a timer context answers with its own deadline, a
    cancel context with that of its parent. *)
Fixpoint Deadline (c : Context) : option Time :=
  match c with
  | Caller d => d
  | WithCancel p => Deadline p
  | timerCtx _ d => Some d
  end.

(** [context.WithDeadline(parent, d)]: when the deadline of the parent is
    already earlier than [d], the child is a plain cancel context; else it
    is a timer context with the deadline [d], also when [d] has passed. *)
Definition WithDeadline (parent : Context) (d : Time) : Context :=
  match Deadline parent with
  | Some cur => if cur <? d then WithCancel parent else timerCtx parent d
  | None => timerCtx parent d
  end.

(** [context.WithTimeout(parent, timeout)] is
    [WithDeadline(parent, time.Now().Add(timeout))]. *)
Definition WithTimeout (parent : Context) (now : Time) (timeout : Duration)
  : Context :=
  WithDeadline parent (now + timeout).

Definition parent_of (c : Context) : option Context :=
  match c with
  | Caller _ => None
  | WithCancel p => Some p
  | timerCtx p _ => Some p
  end.

(** ** options.go *)

(** [type BackoffFn func(count uint64) time.Duration], a nilable func. *)
Definition BackoffFn := option (Z -> Duration).

Definition ConstantBackoff (d : Duration) : BackoffFn :=
  Some (fun _ => d).

Record recurrenceOptions : Type := {
  recur : bool;
  period : Duration
}.

Record constraintOptions : Type := {
  timeout : Duration;
  runLimit : Z
}.

Record restartOptions : Type := {
  restartOnError : bool;
  restartLimit : Z;
  resetOnSuccess : bool;
  backoff : BackoffFn
}.

Record panicOptions : Type := {
  calm : bool
}.

Record options : Type := {
  errChanSize : Z;
  recurring : recurrenceOptions;
  constrained : constraintOptions;
  restartable : restartOptions;
  recoverable : panicOptions
}.

(** [new(options)]: every field at its zero value. *)
Definition new_options : options :=
  {| errChanSize := 0;
     recurring := {| recur := false; period := 0 |};
     constrained := {| timeout := 0; runLimit := 0 |};
     restartable := {| restartOnError := false; restartLimit := 0;
                       resetOnSuccess := false; backoff := None |};
     recoverable := {| calm := false |} |}.

(** [type Option]: a func from a pointer to [options] to a pointer to
    [options]; the package's options update the pointee and return it. *)
Definition Option := options -> options.

Definition set_recurring (f : recurrenceOptions -> recurrenceOptions) : Option :=
  fun o =>
    {| errChanSize := errChanSize o; recurring := f (recurring o);
       constrained := constrained o; restartable := restartable o;
       recoverable := recoverable o |}.

Definition set_constrained (f : constraintOptions -> constraintOptions) : Option :=
  fun o =>
    {| errChanSize := errChanSize o; recurring := recurring o;
       constrained := f (constrained o); restartable := restartable o;
       recoverable := recoverable o |}.

Definition set_restartable (f : restartOptions -> restartOptions) : Option :=
  fun o =>
    {| errChanSize := errChanSize o; recurring := recurring o;
       constrained := constrained o; restartable := f (restartable o);
       recoverable := recoverable o |}.

Definition WithChanBuffer (sz : Z) : Option :=
  fun o =>
    {| errChanSize := sz; recurring := recurring o;
       constrained := constrained o; restartable := restartable o;
       recoverable := recoverable o |}.

Definition Recur (b : bool) : Option :=
  set_recurring (fun x => {| recur := b; period := period x |}).

Definition Period (p : Duration) : Option :=
  set_recurring (fun x => {| recur := recur x; period := p |}).

Definition Timeout (t : Duration) : Option :=
  set_constrained (fun x => {| timeout := t; runLimit := runLimit x |}).

Definition RunLimit (limit : Z) : Option :=
  set_constrained (fun x => {| timeout := timeout x; runLimit := limit |}).

Definition Restart (b : bool) : Option :=
  set_restartable (fun x =>
    {| restartOnError := b; restartLimit := restartLimit x;
       resetOnSuccess := resetOnSuccess x; backoff := backoff x |}).

(** A nil [backoffFn] is replaced by [ConstantBackoff(0)] here, and only
    here. *)
Definition RestartLimit (limit : Z) (backoffFn : BackoffFn) : Option :=
  let boff :=
    match backoffFn with
    | Some _ => backoffFn
    | None => ConstantBackoff 0
    end in
  set_restartable (fun x =>
    {| restartOnError := restartOnError x; restartLimit := limit;
       resetOnSuccess := resetOnSuccess x; backoff := boff |}).

Definition ResetOnSuccess (reset : bool) : Option :=
  set_restartable (fun x =>
    {| restartOnError := restartOnError x; restartLimit := restartLimit x;
       resetOnSuccess := reset; backoff := backoff x |}).

Definition Recover (b : bool) : Option :=
  fun o =>
    {| errChanSize := errChanSize o; recurring := recurring o;
       constrained := constrained o; restartable := restartable o;
       recoverable := {| calm := b |} |}.

(** The method [(o *options) calm()], safe on a nil receiver. *)
Definition options_calm (o : option options) : bool :=
  match o with
  | Some o' => calm (recoverable o')
  | None => false
  end.

(** The option values of the package: [options] is unexported, so a caller
    outside the package has no other way to make an [Option].  The bounds
    are those of the Go argument types. *)
Inductive PackageOption : Option -> Prop :=
| PO_WithChanBuffer sz : 0 <= sz < uint64_modulus -> PackageOption (WithChanBuffer sz)
| PO_Recur b : PackageOption (Recur b)
| PO_Period p : PackageOption (Period p)
| PO_Timeout t : PackageOption (Timeout t)
| PO_RunLimit n : 0 <= n < uint64_modulus -> PackageOption (RunLimit n)
| PO_Restart b : PackageOption (Restart b)
| PO_RestartLimit n f : 0 <= n < uint64_modulus -> PackageOption (RestartLimit n f)
| PO_ResetOnSuccess b : PackageOption (ResetOnSuccess b)
| PO_Recover b : PackageOption (Recover b).

(** ** runnable.go *)

(** [type Runnable func(context.Context) error], a nilable func.  A runnable
    is arbitrary Go code: what it does may differ from call to call, so the
    function takes the number of calls made before this one. *)
Definition Runnable := option (nat -> Context -> outcome (option error)).

(** The method [(r Runnable) run(ctx)], for the call number [n]. *)
Definition Runnable_run (r : Runnable) (n : nat) (ctx : Context)
  : outcome (option error) :=
  match r with
  | None => Panic (VString NilRunnable)
  | Some f => f n ctx
  end.

(** ** instance.go *)

Record Instance : Type := {
  inst_r : Runnable;
  inst_opts : option options;
  runs : Z;
  failedRuns : Z;
  once : bool          (* whether [once.Do] has already run its function *)
}.

Definition set_runs (x : Z) (i : Instance) : Instance :=
  {| inst_r := inst_r i; inst_opts := inst_opts i; runs := x;
     failedRuns := failedRuns i; once := once i |}.

Definition set_failedRuns (x : Z) (i : Instance) : Instance :=
  {| inst_r := inst_r i; inst_opts := inst_opts i; runs := runs i;
     failedRuns := x; once := once i |}.

Definition set_once (b : bool) (i : Instance) : Instance :=
  {| inst_r := inst_r i; inst_opts := inst_opts i; runs := runs i;
     failedRuns := failedRuns i; once := b |}.

(** The loop of [New] over its options, from left to right. *)
Definition apply_options (opts : list Option) (o : options) : options :=
  fold_left (fun acc opt => opt acc) opts o.

(** [New(r, opts...)]. *)
Definition New (r : Runnable) (opts : list Option) : Instance :=
  {| inst_r := r;
     inst_opts := Some (apply_options opts new_options);
     runs := 0; failedRuns := 0; once := false |}.

(** [withContextTimeout]: the child context handed to the runnable.  Its
    cancel func is the one of the child, so it is identified with it. *)
Definition withContextTimeout (i : Instance) (ctx : Context) (now : Time)
  : Context :=
  match inst_opts i with
  | Some o =>
      if negb (timeout (constrained o) =? 0)
      then WithTimeout ctx now (timeout (constrained o))
      else WithCancel ctx
  | None => WithCancel ctx
  end.

(** [rerun(err)]: whether to run again and after which delay.  The method
    updates the counters of its receiver, so the instance is returned too;
    calling a nil [backoff] panics, after [failedRuns] has been counted. *)
Definition rerun (i : Instance) (err : option error)
  : Instance * outcome (bool * Duration) :=
  match inst_opts i with
  | None => (i, Return (false, 0))
  | Some o =>
      match err with
      | None =>
          let i := set_runs (incr64 (runs i)) i in
          let i := if restartOnError (restartable o)
                   then set_failedRuns 0 i else i in
          let ra := if recur (recurring o)
                    then (true, period (recurring o)) else (false, 0) in
          let cOpts := constrained o in
          if negb (runLimit cOpts =? 0) && (runLimit cOpts <=? runs i)
          then (i, Return (false, 0))
          else (i, Return ra)
      | Some _ =>
          let i := set_failedRuns (incr64 (failedRuns i)) i in
          let rOpts := restartable o in
          if restartOnError rOpts then
            let failLimit := restartLimit rOpts in
            if (failLimit =? 0) || (failedRuns i <? failLimit) then
              match backoff rOpts with
              | Some f => (i, Return (true, f (failedRuns i)))
              | None => (i, Panic nilFuncCall)
              end
            else (i, Return (false, 0))
          else (i, Return (false, 0))
      end
  end.

(** ** The goroutine of [runCh] *)

(** What the [select] at the head of a pass of the loop receives first: the
    timer of [time.After(after)], or [ctx.Done()], together with the value
    [ctx.Err()] has at that moment. *)
Inductive selected : Type :=
| TimerFired
| Done (err : option error).

(** The observable steps of the goroutine, in program order. *)
Inductive event : Type :=
| EvWait (after : Duration)          (* the [select] of a pass is entered *)
| EvCall (n : nat) (ctxt : Context)  (* [i.r.run(ctxt)], the call number [n] *)
| EvCancel (ctxt : Context)          (* the deferred [cancel()] of [ctxt] *)
| EvSend (e : error)                 (* [errCh <- e] *)
| EvClose.                           (* [close(errCh)] *)

(** How the body of [runCh] is left: by a [return] or the end of the loop,
    or by a panic that unwinds it. *)
Inductive unwinding : Type :=
| Returns
| Panics (v : value).

(** [if e != nil { errCh <- e }]. *)
Definition send_if (e : option error) : list event :=
  match e with
  | Some e' => [EvSend e']
  | None => []
  end.

Definition run_result : Type := list event * Instance * unwinding.

Definition prepend (pre : list event) (res : option run_result)
  : option run_result :=
  match res with
  | Some (tr, i, u) => Some (pre ++ tr, i, u)
  | None => None
  end.

Section Engine.

(** The caller's context, the choice made by the [select] of the pass
    number [n], and the reading of the clock when that pass derives the
    child context. *)
Variable ctx : Context.
Variable sel : nat -> selected.
Variable now : nat -> Time.

(** The anonymous function of the loop body: it derives the child
    context, defers its [cancel()] and calls the runnable.  The deferred
    call runs when the function is left, by a return or by a panic. *)
Definition execute (i : Instance) (n : nat)
  : list event * outcome (option error) :=
  let ctxt := withContextTimeout i ctx (now n) in
  ([EvCall n ctxt; EvCancel ctxt], Runnable_run (inst_r i) n ctxt).

(** The [for] loop of [runCh] from the head of the pass number [n], which
    is also the number of calls made so far, with the delay [after] chosen
    by the pass before.  The sends are taken to be accepted: a receiver
    drains the channel.  [fuel] bounds the number of passes; [None] means
    the bound was hit. *)
Fixpoint loop (fuel : nat) (i : Instance) (n : nat) (after : Duration)
  : option run_result :=
  match fuel with
  | O => None
  | S fuel' =>
      match sel n with
      | Done e => Some (EvWait after :: send_if e, i, Returns)
      | TimerFired =>
          match execute i n with
          | (called, Panic v) => Some (EvWait after :: called, i, Panics v)
          | (called, Return err) =>
              let pass := EvWait after :: called ++ send_if err in
              match rerun i err with
              | (i', Panic v) => Some (pass, i', Panics v)
              | (i', Return (false, _)) => Some (pass, i', Returns)
              | (i', Return (true, after')) =>
                  prepend pass (loop fuel' i' (S n) after')
              end
          end
      end
  end.

(** The deferred calls of [runCh], last registered first: the recovery,
    registered only when [i.opts.calm()] held at entry, then
    [close(errCh)].  The recovery stops a panic whatever its value, and
    sends it as a [RunnablePanic] when [episode != nil]; the goroutine then
    returns.  A panic that is not recovered goes on after the close. *)
Definition deferred (calm_at_entry : bool) (res : option run_result)
  : option run_result :=
  match res with
  | None => None
  | Some (tr, i, Returns) => Some (tr ++ [EvClose], i, Returns)
  | Some (tr, i, Panics episode) =>
      if calm_at_entry
      then Some (tr ++ (if negb (is_nil episode)
                        then [EvSend (RunnablePanic episode)]
                        else []) ++ [EvClose],
                 i, Returns)
      else Some (tr ++ [EvClose], i, Panics episode)
  end.

(** [runCh] from the head of the pass number [n] on. *)
Definition runCh_from (fuel : nat) (i : Instance) (n : nat)
  (after : Duration) : option run_result :=
  deferred (options_calm (inst_opts i)) (loop fuel i n after).

(** [runCh(ctx, errCh)]: the first pass waits for the zero delay. *)
Definition runCh (fuel : nat) (i : Instance) : option run_result :=
  runCh_from fuel i 0%nat 0.

End Engine.

(** ** What a receiver and the runnable see of a run *)

(** The number of calls of the runnable. *)
Fixpoint executions (tr : list event) : nat :=
  match tr with
  | [] => O
  | EvCall _ _ :: tr' => S (executions tr')
  | _ :: tr' => executions tr'
  end.

(** The errors received from the channel, in the order they were sent. *)
Fixpoint stream (tr : list event) : list error :=
  match tr with
  | [] => []
  | EvSend e :: tr' => e :: stream tr'
  | _ :: tr' => stream tr'
  end.

(** The contexts handed to the runnable, and those whose cancel func has
    been called, in order. *)
Fixpoint handed (tr : list event) : list Context :=
  match tr with
  | [] => []
  | EvCall _ c :: tr' => c :: handed tr'
  | _ :: tr' => handed tr'
  end.

Fixpoint released (tr : list event) : list Context :=
  match tr with
  | [] => []
  | EvCancel c :: tr' => c :: released tr'
  | _ :: tr' => released tr'
  end.

Definition is_close (ev : event) : bool :=
  match ev with
  | EvClose => true
  | _ => false
  end.

(** The channel is closed exactly once, as the last step. *)
Definition closes_last (tr : list event) : Prop :=
  exists pre, tr = pre ++ [EvClose] /\ existsb is_close pre = false.

(** ** [Run] and the start guard *)

(** A channel made by [make(chan error, size)]. *)
Record chan : Type := { chan_cap : Z }.

(** A goroutine started by [go i.runCh(ctx, errCh)]. *)
Inductive goroutine : Type :=
| GoRunCh (ctx : Context) (errCh : chan).

(** [make(chan error, size)] on a 64-bit platform, where an [error] takes
    16 bytes.  The runtime panics when the number of bytes of the buffer
    overflows a [uintptr], when it is above what the allocator accepts, or
    when the size is negative.  What the allocator accepts, [maxAlloc -
    hchanSize] in the runtime, differs between platforms and releases: it
    is the parameter [maxChanMem]. *)
Definition makechan (maxChanMem : Z) (size : Z) : outcome chan :=
  if (uint64_modulus <=? 16 * size) || (maxChanMem <? 16 * size)
     || (size <? 0)
  then Panic makechanPanic
  else Return {| chan_cap := size |}.

(** [chanSize] in [run]: the buffer size of the options, zero without
    options. *)
Definition chanSize (i : Instance) : Z :=
  match inst_opts i with
  | Some o => errChanSize o
  | None => 0
  end.

(** The method [run]: how the call ends, with the channel returned ([None]
    for the nil channel), and the goroutines it starts.  [once.Do] runs its
    function on the first call only, and counts that call as done also when
    the function panics, which it does when [make] does; the panic then
    reaches the caller of [run], before any goroutine is started. *)
Definition run (maxChanMem : Z) (i : Instance) (ctx : Context)
  : Instance * outcome (option chan) * list goroutine :=
  if once i then (i, Return None, [])
  else
    match makechan maxChanMem (chanSize i) with
    | Return errCh =>
        (set_once true i, Return (Some errCh), [GoRunCh ctx errCh])
    | Panic v => (set_once true i, Panic v, [])
    end.

Definition Run (maxChanMem : Z) (i : Instance) (ctx : Context)
  : Instance * outcome (option chan) * list goroutine :=
  run maxChanMem i ctx.

(** A sequence of calls of [Run] on one instance, one per context given
    (a caller that recovers from a panic of [Run] can call it again): how
    each call ended, in order, and all goroutines started. *)
Fixpoint Run_calls (maxChanMem : Z) (i : Instance) (ctxs : list Context)
  : Instance * list (outcome (option chan)) * list goroutine :=
  match ctxs with
  | [] => (i, [], [])
  | c :: ctxs' =>
      let '(i1, ch, gs) := Run maxChanMem i c in
      let '(i2, chs, gs') := Run_calls maxChanMem i1 ctxs' in
      (i2, ch :: chs, gs ++ gs')
  end.

(** What two runs are compared on: the events, the final counters and the
    way the goroutine ends. *)
Definition observe (res : option run_result)
  : option (list event * Z * Z * unwinding) :=
  match res with
  | Some (tr, i, u) => Some (tr, runs i, failedRuns i, u)
  | None => None
  end.

Definition set_opts (o : option options) (i : Instance) : Instance :=
  {| inst_r := inst_r i; inst_opts := o; runs := runs i;
     failedRuns := failedRuns i; once := once i |}.

(** The timeout an instance is configured with; none without options. *)
Definition configured_timeout (i : Instance) : Duration :=
  match inst_opts i with
  | Some o => timeout (constrained o)
  | None => 0
  end.

(** ** The test doubles of instance_test.go *)

(** [newExpectations(calls...)]: a runnable that plays the expected calls in
    order and fails the test on a call too many. *)
Definition expectations (calls : list (outcome (option error))) : Runnable :=
  Some (fun n _ => nth n calls (Panic (VString "unexpected call"))).

(** [testError(val)], known by its text. *)
Definition testError (val : Z) : error :=
  ErrorString ("test error: " ++ fmt_v (VInt val)).

(** The instance literal of the test table: [Instance{r: ..., opts: ...}]. *)
Definition literal (r : Runnable) (o : option options) : Instance :=
  {| inst_r := r; inst_opts := o; runs := 0; failedRuns := 0; once := false |}.

(** A parent context that is never done. *)
Definition never_done (n : nat) : selected := TimerFired.

(** A clock that is read one millisecond later at each pass. *)
Definition test_clock (n : nat) : Time := 1000000 * Z.of_nat n.

(** An instance under restart and panic containment whose runnable fails
    once and then panics, and the events of its run under a parent context
    that is never done. *)
Definition fails_then_panics : Instance :=
  New (expectations [Return (Some (testError 1));
                     Panic (VString "panic message")])
    [Restart true; RestartLimit 3 None; Recover true].

Definition fails_then_panics_events : list event :=
  [EvWait 0; EvCall 0 (WithCancel (Caller None));
   EvCancel (WithCancel (Caller None)); EvSend (testError 1);
   EvWait 0; EvCall 1 (WithCancel (Caller None));
   EvCancel (WithCancel (Caller None));
   EvSend (RunnablePanic (VString "panic message")); EvClose].

(** What a test checks of a run: the calls made, the errors received and how
    the goroutine ended. *)
Definition checked (res : option run_result)
  : option (nat * list error * unwinding) :=
  match res with
  | Some (tr, _, u) => Some (executions tr, stream tr, u)
  | None => None
  end.

(** ** Further views of the options and of a run *)

(** The field, or pair of fields, an option of the package sets. *)
Inductive kind : Type :=
| KChanBuffer | KRecur | KPeriod | KTimeout | KRunLimit
| KRestart | KRestartLimit | KResetOnSuccess | KRecover.

Inductive HasKind : Option -> kind -> Prop :=
| HK_WithChanBuffer sz : HasKind (WithChanBuffer sz) KChanBuffer
| HK_Recur b : HasKind (Recur b) KRecur
| HK_Period p : HasKind (Period p) KPeriod
| HK_Timeout t : HasKind (Timeout t) KTimeout
| HK_RunLimit n : HasKind (RunLimit n) KRunLimit
| HK_Restart b : HasKind (Restart b) KRestart
| HK_RestartLimit n f : HasKind (RestartLimit n f) KRestartLimit
| HK_ResetOnSuccess b : HasKind (ResetOnSuccess b) KResetOnSuccess
| HK_Recover b : HasKind (Recover b) KRecover.

(** The delays the selects of a run were entered with, in order. *)
Fixpoint waits (tr : list event) : list Duration :=
  match tr with
  | [] => []
  | EvWait d :: tr' => d :: waits tr'
  | _ :: tr' => waits tr'
  end.

(** What [if err != nil { errCh <- err }] sends after a call that ended
    with [out]: the error returned, if there is one. *)
Definition returned_error (out : outcome (option error)) : list error :=
  match out with
  | Return (Some e) => [e]
  | _ => []
  end.

(** The outcome of the call number [j] of a run of [i] under the parent
    context [ctx], with the clock [now]. *)
Definition call_outcome (ctx : Context) (now : nat -> Time) (i : Instance)
  (j : nat) : outcome (option error) :=
  Runnable_run (inst_r i) j (withContextTimeout i ctx (now j)).

(** A runnable that fails on its odd calls (the second, the fourth, ...)
    and succeeds on the others. *)
Definition fails_on_odd_calls (errs : nat -> error)
  : nat -> Context -> outcome (option error) :=
  fun n _ => if Nat.odd n then Return (Some (errs n)) else Return None.

(** * Properties *)

(** ** The tests of instance_test.go, replayed on the embedding *)

Example test_run_calls_runnable :
  checked (runCh (Caller None) never_done test_clock 10
             (literal (expectations [Return None]) (Some new_options)))
  = Some (1%nat, [], Returns).
Proof. reflexivity. Qed.

Example test_nil_options :
  checked (runCh (Caller None) never_done test_clock 10
             (literal (expectations [Return None]) None))
  = Some (1%nat, [], Returns).
Proof. reflexivity. Qed.

Example test_recurring_stops_on_error :
  checked (runCh (Caller None) never_done test_clock 10
             (literal (expectations [Return None; Return None;
                                     Return (Some (testError 1))])
                (Some (RunLimit 5 (Recur true new_options)))))
  = Some (3%nat, [testError 1], Returns).
Proof. reflexivity. Qed.

Example test_recurring_restartable_runs_until_limit_successes :
  checked (runCh (Caller None) never_done test_clock 10
             (literal (expectations [Return None; Return (Some (testError 1));
                                     Return None; Return None])
                (Some (RestartLimit 2 (ConstantBackoff 0)
                         (Restart true (RunLimit 3 (Recur true new_options)))))))
  = Some (4%nat, [testError 1], Returns).
Proof. reflexivity. Qed.

Example test_recurring_restartable_with_reset :
  checked (runCh (Caller None) never_done test_clock 10
             (literal (expectations
                         [Return None; Return (Some (testError 1));
                          Return None; Return (Some (testError 2));
                          Return None; Return (Some (testError 3));
                          Return None; Return None])
                (Some (ResetOnSuccess true
                         (RestartLimit 3 (ConstantBackoff 0)
                            (Restart true
                               (RunLimit 5 (Recur true new_options))))))))
  = Some (8%nat, [testError 1; testError 2; testError 3], Returns).
Proof. reflexivity. Qed.

Example test_recurring_recoverable_stops_on_panic :
  checked (runCh (Caller None) never_done test_clock 10
             (literal (expectations [Return None; Return None;
                                     Panic (VString "panic message")])
                (Some (Recover true (Recur true new_options)))))
  = Some (3%nat, [RunnablePanic (VString "panic message")], Returns).
Proof. reflexivity. Qed.

(** The parent context is done at the select of the seventh pass, while the
    loop waits for the backoff of the failure. *)
Example test_parent_deadline_exceeded_during_backoff :
  checked (runCh (Caller (Some 500000000))
             (fun n => if (n <? 6)%nat then TimerFired
                       else Done (Some DeadlineExceeded))
             test_clock 10
             (literal (expectations [Return None; Return None; Return None;
                                     Return None; Return None;
                                     Return (Some (testError 1))])
                (Some (RestartLimit 3 (Some (fun _ => 287000000))
                         (Restart true (Recur true new_options))))))
  = Some (6%nat, [testError 1; DeadlineExceeded], Returns).
Proof. reflexivity. Qed.

Example test_RunnablePanic_contains_panic_value :
  Error (RunnablePanic (VString "panic message"))
  = "runnable panic: panic message"%string.
Proof. reflexivity. Qed.

(** [%v] of an integer, of a runtime error and of nil in the text of a
    [RunnablePanic]. *)
Example RunnablePanic_text_of_other_values :
  Error (RunnablePanic (VInt (-42))) = "runnable panic: -42"%string /\
  Error (RunnablePanic nilFuncCall)
  = "runnable panic: runtime error: invalid memory address or nil pointer dereference"%string /\
  Error (RunnablePanic VNil) = "runnable panic: <nil>"%string.
Proof. repeat split. Qed.

(** ** Traces *)

Lemma executions_app (a b : list event) :
  executions (a ++ b) = (executions a + executions b)%nat.
Proof.
  induction a as [|ev a IH]; simpl; [reflexivity|].
  destruct ev; simpl; rewrite IH; reflexivity.
Qed.

Lemma stream_app (a b : list event) :
  stream (a ++ b) = (stream a ++ stream b)%list.
Proof.
  induction a as [|ev a IH]; simpl; [reflexivity|].
  destruct ev; simpl; rewrite IH; reflexivity.
Qed.

Lemma handed_app (a b : list event) :
  handed (a ++ b) = (handed a ++ handed b)%list.
Proof.
  induction a as [|ev a IH]; simpl; [reflexivity|].
  destruct ev; simpl; rewrite IH; reflexivity.
Qed.

Lemma released_app (a b : list event) :
  released (a ++ b) = (released a ++ released b)%list.
Proof.
  induction a as [|ev a IH]; simpl; [reflexivity|].
  destruct ev; simpl; rewrite IH; reflexivity.
Qed.

Lemma executions_send_if (e : option error) : executions (send_if e) = O.
Proof. destruct e; reflexivity. Qed.

Lemma stream_send_if (e : option error) :
  stream (send_if e) = match e with Some e' => [e'] | None => [] end.
Proof. destruct e; reflexivity. Qed.

Lemma no_close_send_if (e : option error) :
  existsb is_close (send_if e) = false.
Proof. destruct e; reflexivity. Qed.

Lemma closes_last_intro (pre : list event) :
  existsb is_close pre = false -> closes_last (pre ++ [EvClose]).
Proof. intros H. exists pre. split; [reflexivity | exact H]. Qed.

(** ** [rerun] *)

Lemma incr64_small (x : Z) :
  0 <= x -> x + 1 < uint64_modulus -> incr64 x = x + 1.
Proof.
  intros H0 H1. unfold incr64. apply Z.mod_small. lia.
Qed.

(** [rerun] touches the counters only. *)
Lemma rerun_keeps (i : Instance) (err : option error) :
  inst_r (fst (rerun i err)) = inst_r i /\
  inst_opts (fst (rerun i err)) = inst_opts i /\
  once (fst (rerun i err)) = once i.
Proof.
  unfold rerun.
  destruct (inst_opts i) as [o|] eqn:Ho; [|simpl; auto].
  destruct err as [e|].
  - destruct (restartOnError (restartable o)); [|simpl; auto].
    destruct ((restartLimit (restartable o) =? 0)
              || (failedRuns (set_failedRuns (incr64 (failedRuns i)) i)
                  <? restartLimit (restartable o))); [|simpl; auto].
    destruct (backoff (restartable o)); simpl; auto.
  - destruct (restartOnError (restartable o));
      match goal with
      | |- context [if ?c then (_, _) else (_, _)] => destruct c
      end; simpl; auto.
Qed.

(** [rerun] after a success, when the run limit is not reached. *)
Lemma rerun_success_below_limit (i : Instance) (o : options) :
  inst_opts i = Some o ->
  recur (recurring o) = true ->
  0 <= runs i ->
  runs i + 1 < runLimit (constrained o) < uint64_modulus ->
  exists i', rerun i None = (i', Return (true, period (recurring o))) /\
             runs i' = runs i + 1.
Proof.
  intros Ho Hrec Hr Hlim. unfold rerun. rewrite Ho, Hrec.
  assert (Hinc : incr64 (runs i) = runs i + 1) by (apply incr64_small; lia).
  destruct (restartOnError (restartable o)); simpl; rewrite Hinc;
    (replace (runLimit (constrained o) <=? runs i + 1) with false
       by (symmetry; apply Z.leb_gt; lia));
    rewrite andb_false_r; eexists; split; try reflexivity; simpl; exact Hinc.
Qed.

(** [rerun] after the success that reaches the run limit. *)
Lemma rerun_success_at_limit (i : Instance) (o : options) :
  inst_opts i = Some o ->
  0 <= runs i ->
  runs i + 1 = runLimit (constrained o) ->
  runLimit (constrained o) < uint64_modulus ->
  exists i', rerun i None = (i', Return (false, 0)) /\
             runs i' = runLimit (constrained o).
Proof.
  intros Ho Hr Hlim Hmax. unfold rerun. rewrite Ho.
  assert (Hinc : incr64 (runs i) = runs i + 1) by (apply incr64_small; lia).
  destruct (restartOnError (restartable o)); simpl; rewrite Hinc;
    (replace (runLimit (constrained o) =? 0) with false
       by (symmetry; apply Z.eqb_neq; lia));
    (replace (runLimit (constrained o) <=? runs i + 1) with true
       by (symmetry; apply Z.leb_le; lia));
    simpl; eexists; split; try reflexivity; simpl; lia.
Qed.

(** [rerun] after a failure, with a backoff, below the restart limit. *)
Lemma rerun_failure_below_limit (i : Instance) (o : options)
  (b : Z -> Duration) (e : error) :
  inst_opts i = Some o ->
  restartOnError (restartable o) = true ->
  backoff (restartable o) = Some b ->
  0 <= failedRuns i ->
  failedRuns i + 1 < restartLimit (restartable o) < uint64_modulus ->
  exists i', rerun i (Some e) = (i', Return (true, b (failedRuns i + 1))) /\
             failedRuns i' = failedRuns i + 1.
Proof.
  intros Ho Hre Hb Hf Hlim. unfold rerun. rewrite Ho, Hre, Hb.
  assert (Hinc : incr64 (failedRuns i) = failedRuns i + 1)
    by (apply incr64_small; lia).
  simpl. rewrite Hinc.
  replace (failedRuns i + 1 <? restartLimit (restartable o)) with true
    by (symmetry; apply Z.ltb_lt; lia).
  rewrite orb_true_r. eexists; split; try reflexivity; simpl; exact Hinc.
Qed.

(** [rerun] after the failure that reaches the restart limit: the backoff is
    not called. *)
Lemma rerun_failure_at_limit (i : Instance) (o : options) (e : error) :
  inst_opts i = Some o ->
  0 <= failedRuns i ->
  failedRuns i + 1 = restartLimit (restartable o) ->
  restartLimit (restartable o) < uint64_modulus ->
  exists i', rerun i (Some e) = (i', Return (false, 0)) /\
             failedRuns i' = restartLimit (restartable o).
Proof.
  intros Ho Hf Hlim Hmax. unfold rerun. rewrite Ho.
  assert (Hinc : incr64 (failedRuns i) = failedRuns i + 1)
    by (apply incr64_small; lia).
  destruct (restartOnError (restartable o)); simpl; rewrite ?Hinc.
  - replace (restartLimit (restartable o) =? 0) with false
      by (symmetry; apply Z.eqb_neq; lia).
    replace (failedRuns i + 1 <? restartLimit (restartable o)) with false
      by (symmetry; apply Z.ltb_ge; lia).
    simpl. eexists; split; try reflexivity; simpl; lia.
  - eexists; split; try reflexivity; simpl; lia.
Qed.

(** ** The loop *)

Section Loop.

Variable ctx : Context.
Variable sel : nat -> selected.
Variable now : nat -> Time.

(** The events of one pass that calls the runnable and gets [err] back. *)
Lemma pass_events (i : Instance) (n : nat) (after : Duration)
  (err : option error) :
  EvWait after :: fst (execute ctx now i n) ++ send_if err
  = [EvWait after; EvCall n (withContextTimeout i ctx (now n));
     EvCancel (withContextTimeout i ctx (now n))] ++ send_if err.
Proof. reflexivity. Qed.

(** Induction on the passes of a run that ends: the five ways a pass can
    go.  The parent context is done; the call panics; the call returns and
    [rerun] panics, says stop, or says go on. *)
Lemma loop_passes_ind
  (P : Instance -> nat -> Duration -> run_result -> Prop) :
  (forall i n after e,
     sel n = Done e ->
     P i n after (EvWait after :: send_if e, i, Returns)) ->
  (forall i n after v,
     sel n = TimerFired ->
     snd (execute ctx now i n) = Panic v ->
     P i n after (EvWait after :: fst (execute ctx now i n), i, Panics v)) ->
  (forall i n after err i' v,
     sel n = TimerFired ->
     snd (execute ctx now i n) = Return err ->
     rerun i err = (i', Panic v) ->
     P i n after
       (EvWait after :: fst (execute ctx now i n) ++ send_if err, i',
        Panics v)) ->
  (forall i n after err i' a,
     sel n = TimerFired ->
     snd (execute ctx now i n) = Return err ->
     rerun i err = (i', Return (false, a)) ->
     P i n after
       (EvWait after :: fst (execute ctx now i n) ++ send_if err, i',
        Returns)) ->
  (forall i n after err i' after' tr i'' u,
     sel n = TimerFired ->
     snd (execute ctx now i n) = Return err ->
     rerun i err = (i', Return (true, after')) ->
     P i' (S n) after' (tr, i'', u) ->
     P i n after
       ((EvWait after :: fst (execute ctx now i n) ++ send_if err) ++ tr,
        i'', u)) ->
  forall fuel i n after res,
    loop ctx sel now fuel i n after = Some res -> P i n after res.
Proof.
  intros Hdone Hpanic Hfault Hstop Hgo.
  induction fuel as [|fuel IH]; intros i n after res H; simpl in H;
    [discriminate|].
  destruct (sel n) as [|e] eqn:Hs.
  - destruct (Runnable_run (inst_r i) n (withContextTimeout i ctx (now n)))
      as [err|v] eqn:Hc.
    + destruct (rerun i err) as [i1 [[[|] after']|v]] eqn:Hr.
      * destruct (loop ctx sel now fuel i1 (S n) after')
          as [[[tr1 i2] u1]|] eqn:Hl; simpl in H; [|discriminate].
        inversion H; subst; clear H.
        apply (Hgo i n after err i1 after' tr1 i2 u1 Hs Hc Hr).
        apply (IH _ _ _ _ Hl).
      * inversion H; subst. apply (Hstop i n after err i1 after' Hs Hc Hr).
      * inversion H; subst. apply (Hfault i n after err i1 v Hs Hc Hr).
    + inversion H; subst. apply (Hpanic i n after v Hs Hc).
  - inversion H; subst. apply (Hdone i n after e Hs).
Qed.

(** The loop itself never closes the channel, whatever the options, the
    runnable and the parent context do. *)
Lemma loop_no_close (fuel : nat) :
  forall i n after tr i' u,
    loop ctx sel now fuel i n after = Some (tr, i', u) ->
    existsb is_close tr = false.
Proof.
  intros i n after tr i' u H.
  apply (loop_passes_ind
           (fun _ _ _ res => existsb is_close (fst (fst res)) = false))
    in H; [exact H | | | | | ]; clear; intros; simpl in *.
  - apply no_close_send_if.
  - reflexivity.
  - apply no_close_send_if.
  - apply no_close_send_if.
  - rewrite existsb_app, no_close_send_if. assumption.
Qed.

(** Every context handed to the runnable is released, in the same order,
    whether the call returned or panicked. *)
Lemma loop_released_handed (fuel : nat) :
  forall i n after tr i' u,
    loop ctx sel now fuel i n after = Some (tr, i', u) ->
    released tr = handed tr.
Proof.
  intros i n after tr i' u H.
  apply (loop_passes_ind
           (fun _ _ _ res => released (fst (fst res)) = handed (fst (fst res))))
    in H; [exact H | | | | | ]; clear; intros; simpl in *.
  - destruct e; reflexivity.
  - reflexivity.
  - destruct err; reflexivity.
  - destruct err; reflexivity.
  - rewrite released_app, handed_app. f_equal.
    destruct err; simpl; congruence.
Qed.

(** The contexts handed to the runnable are those [withContextTimeout]
    derives from the parent, one per pass, under the options the run
    started with. *)
Lemma loop_handed (fuel : nat) :
  forall i n after tr i' u,
    loop ctx sel now fuel i n after = Some (tr, i', u) ->
    Forall (fun c => exists k j, inst_opts j = inst_opts i /\
                                 c = withContextTimeout j ctx (now k))
           (handed tr).
Proof.
  intros i n after tr i' u H.
  apply (loop_passes_ind
           (fun i _ _ res =>
              Forall (fun c => exists k j, inst_opts j = inst_opts i /\
                                           c = withContextTimeout j ctx (now k))
                     (handed (fst (fst res)))))
    in H; [exact H | | | | | ]; clear; intros; simpl in *.
  - destruct e; constructor.
  - constructor; [exists n, i; auto | constructor].
  - constructor; [exists n, i; auto | destruct err; constructor].
  - constructor; [exists n, i; auto | destruct err; constructor].
  - constructor; [exists n, i; auto|].
    rewrite handed_app. apply Forall_app.
    split; [destruct err; constructor|].
    pose proof (rerun_keeps i err) as (_ & Ho & _).
    rewrite H1 in Ho. simpl in Ho.
    eapply Forall_impl; [|exact H2].
    intros c (k & j & Hj & Hc). exists k, j. split; congruence.
Qed.

(** More fuel does not change a run that has ended. *)
Lemma loop_fuel_mono (fuel : nat) :
  forall i n after res,
    loop ctx sel now fuel i n after = Some res ->
    forall k, loop ctx sel now (fuel + k) i n after = Some res.
Proof.
  induction fuel as [|fuel IH]; intros i n after res H k; simpl in H;
    [discriminate|].
  simpl. destruct (sel n) as [|e]; [|exact H].
  destruct (Runnable_run (inst_r i) n (withContextTimeout i ctx (now n)))
    as [err|v]; [|exact H].
  destruct (rerun i err) as [i1 [[[|] after']|v]]; try exact H.
  destruct (loop ctx sel now fuel i1 (S n) after') as [res1|] eqn:Hl;
    [|discriminate].
  rewrite (IH _ _ _ _ Hl k). exact H.
Qed.

Lemma runCh_fuel_mono (fuel : nat) (i : Instance) (res : run_result) :
  runCh ctx sel now fuel i = Some res ->
  forall k, runCh ctx sel now (fuel + k) i = Some res.
Proof.
  unfold runCh, runCh_from. intros H k.
  destruct (loop ctx sel now fuel i 0%nat 0) as [res1|] eqn:Hl;
    [|discriminate].
  rewrite (loop_fuel_mono _ _ _ _ _ Hl k). exact H.
Qed.

(** The deferred calls add no call and no release. *)
Lemma runCh_from_released_handed (fuel : nat) (i : Instance) (n : nat)
  (after : Duration) (tr : list event) (i' : Instance) (u : unwinding) :
  runCh_from ctx sel now fuel i n after = Some (tr, i', u) ->
  released tr = handed tr.
Proof.
  unfold runCh_from. intros H.
  destruct (loop ctx sel now fuel i n after) as [[[t j] w]|] eqn:Hl;
    [|discriminate].
  pose proof (loop_released_handed _ _ _ _ _ _ _ Hl) as Hrel.
  simpl in H.
  destruct w as [|v]; [|destruct (options_calm (inst_opts i))];
    inversion H; subst; rewrite released_app, handed_app, Hrel;
    try destruct (is_nil v); reflexivity.
Qed.

(** A runnable that always succeeds under recurrence and a run limit:
    [S m] more successes are missing to the limit, the select passes that
    many times, and the loop makes exactly [S m] calls. *)
Lemma loop_success_run (f : nat -> Context -> outcome (option error))
  (o : options) (m : nat) :
  recur (recurring o) = true ->
  runLimit (constrained o) < uint64_modulus ->
  (forall n c, f n c = Return None) ->
  forall fuel i n after,
    inst_r i = Some f ->
    inst_opts i = Some o ->
    0 <= runs i ->
    runs i + Z.of_nat (S m) = runLimit (constrained o) ->
    (forall j, (j <= m)%nat -> sel (n + j)%nat = TimerFired) ->
    (S m <= fuel)%nat ->
    exists tr i',
      loop ctx sel now fuel i n after = Some (tr, i', Returns) /\
      executions tr = S m /\ stream tr = [] /\
      runs i' = runLimit (constrained o).
Proof.
  intros Hrec Hmax Hf.
  induction m as [|m IH]; intros fuel i n after Hr Ho Hruns Hlim Hsel Hfuel.
  - destruct fuel as [|fuel]; [lia|]. simpl.
    specialize (Hsel O (Nat.le_refl _)). rewrite Nat.add_0_r in Hsel.
    rewrite Hsel, Hr. simpl. rewrite Hf.
    destruct (rerun_success_at_limit i o Ho Hruns) as (i' & Hre & Hi');
      [lia | exact Hmax |].
    rewrite Hre. exists [EvWait after;
                         EvCall n (withContextTimeout i ctx (now n));
                         EvCancel (withContextTimeout i ctx (now n))], i'.
    repeat split; auto.
  - destruct fuel as [|fuel]; [lia|]. simpl.
    pose proof (Hsel O (Nat.le_0_l _)) as Hs0. rewrite Nat.add_0_r in Hs0.
    rewrite Hs0, Hr. simpl. rewrite Hf.
    destruct (rerun_success_below_limit i o Ho Hrec Hruns) as (i1 & Hre & Hi1);
      [lia|].
    rewrite Hre.
    pose proof (rerun_keeps i None) as (Hk1 & Hk2 & _).
    rewrite Hre in Hk1, Hk2. simpl in Hk1, Hk2.
    destruct (IH fuel i1 (S n) (period (recurring o)))
      as (tr & i' & Hl & He & Hst & Hfin).
    + congruence.
    + congruence.
    + lia.
    + lia.
    + intros j Hj. replace (S n + j)%nat with (n + S j)%nat by lia.
      apply Hsel. lia.
    + lia.
    + rewrite Hl. simpl. eexists _, i'. split; [reflexivity|].
      simpl. rewrite He, Hst. repeat split; auto.
Qed.

(** A runnable that always fails under restart with a backoff and a
    restart limit: the errors are sent in the order of the calls. *)
Lemma loop_failure_run (f : nat -> Context -> outcome (option error))
  (errs : nat -> error) (o : options) (b : Z -> Duration) (m : nat) :
  restartOnError (restartable o) = true ->
  restartLimit (restartable o) < uint64_modulus ->
  (m <> O -> backoff (restartable o) = Some b) ->
  (forall n c, f n c = Return (Some (errs n))) ->
  forall fuel i n after,
    inst_r i = Some f ->
    inst_opts i = Some o ->
    0 <= failedRuns i ->
    failedRuns i + Z.of_nat (S m) = restartLimit (restartable o) ->
    (forall j, (j <= m)%nat -> sel (n + j)%nat = TimerFired) ->
    (S m <= fuel)%nat ->
    exists tr i',
      loop ctx sel now fuel i n after = Some (tr, i', Returns) /\
      executions tr = S m /\ stream tr = map errs (seq n (S m)) /\
      failedRuns i' = restartLimit (restartable o).
Proof.
  intros Hre Hmax Hb Hf.
  induction m as [|m IH]; intros fuel i n after Hr Ho Hfr Hlim Hsel Hfuel.
  - destruct fuel as [|fuel]; [lia|]. simpl.
    specialize (Hsel O (Nat.le_refl _)). rewrite Nat.add_0_r in Hsel.
    rewrite Hsel, Hr. simpl. rewrite Hf.
    destruct (rerun_failure_at_limit i o (errs n) Ho Hfr) as (i' & Hrr & Hi');
      [lia | exact Hmax |].
    rewrite Hrr. eexists _, i'. split; [reflexivity|].
    repeat split; auto.
  - destruct fuel as [|fuel]; [lia|]. simpl.
    pose proof (Hsel O (Nat.le_0_l _)) as Hs0. rewrite Nat.add_0_r in Hs0.
    rewrite Hs0, Hr. simpl. rewrite Hf.
    destruct (rerun_failure_below_limit i o b (errs n) Ho Hre)
      as (i1 & Hrr & Hi1); [auto | exact Hfr | lia |].
    rewrite Hrr.
    pose proof (rerun_keeps i (Some (errs n))) as (Hk1 & Hk2 & _).
    rewrite Hrr in Hk1, Hk2. simpl in Hk1, Hk2.
    destruct (IH (fun _ => Hb (Nat.neq_succ_0 m)) fuel i1 (S n)
                (b (failedRuns i + 1)))
      as (tr & i' & Hl & He & Hst & Hfin).
    + congruence.
    + congruence.
    + lia.
    + lia.
    + intros j Hj. replace (S n + j)%nat with (n + S j)%nat by lia.
      apply Hsel. lia.
    + lia.
    + rewrite Hl. simpl. eexists _, i'. split; [reflexivity|].
      simpl. rewrite He, Hst. repeat split; auto.
Qed.

End Loop.

(** ** The options of the package *)

Lemma ResetOnSuccess_same (o : options) :
  ResetOnSuccess (resetOnSuccess (restartable o)) o = o.
Proof. destruct o as [sz rc cn [re rl rs bo] pn]. reflexivity. Qed.

(** What [New] can build: a restart limit is never left without a backoff,
    and the limits are in the range of [uint64]. *)
Lemma apply_options_invariant (os : list Option) :
  Forall PackageOption os ->
  forall o,
    (restartLimit (restartable o) <> 0 -> backoff (restartable o) <> None) ->
    0 <= restartLimit (restartable o) < uint64_modulus ->
    (restartLimit (restartable (apply_options os o)) <> 0 ->
     backoff (restartable (apply_options os o)) <> None) /\
    0 <= restartLimit (restartable (apply_options os o)) < uint64_modulus.
Proof.
  unfold apply_options.
  induction 1 as [|opt os Hopt _ IH]; intros o Hb Hl; simpl; [auto|].
  apply IH; destruct Hopt; simpl; auto.
  - intros _. destruct f; discriminate.
Qed.

Lemma New_restartLimit_backoff (r : Runnable) (os : list Option) :
  Forall PackageOption os ->
  exists o, inst_opts (New r os) = Some o /\
            (restartLimit (restartable o) <> 0 ->
             backoff (restartable o) <> None) /\
            0 <= restartLimit (restartable o) < uint64_modulus.
Proof.
  intros H. eexists. split; [reflexivity|].
  apply apply_options_invariant; [exact H | | ]; simpl.
  - intros F; contradiction.
  - unfold uint64_modulus. lia.
Qed.

(** ** The start guard *)

Lemma makechan_accepts (maxChanMem size : Z) :
  0 <= size -> 16 * size < uint64_modulus -> 16 * size <= maxChanMem ->
  makechan maxChanMem size = Return {| chan_cap := size |}.
Proof.
  intros H0 H1 H2. unfold makechan.
  replace (uint64_modulus <=? 16 * size) with false
    by (symmetry; apply Z.leb_gt; lia).
  replace (maxChanMem <? 16 * size) with false
    by (symmetry; apply Z.ltb_ge; lia).
  replace (size <? 0) with false by (symmetry; apply Z.ltb_ge; lia).
  reflexivity.
Qed.

Lemma makechan_refuses (maxChanMem size : Z) :
  size < 0 \/ uint64_modulus <= 16 * size \/ maxChanMem < 16 * size ->
  makechan maxChanMem size = Panic makechanPanic.
Proof.
  intros H. unfold makechan.
  replace ((uint64_modulus <=? 16 * size) || (maxChanMem <? 16 * size)
           || (size <? 0)) with true; [reflexivity|].
  symmetry. rewrite !orb_true_iff.
  destruct H as [H|[H|H]].
  - right. apply Z.ltb_lt. exact H.
  - left. left. apply Z.leb_le. exact H.
  - left. right. apply Z.ltb_lt. exact H.
Qed.

Lemma Run_calls_started (maxChanMem : Z) (cs : list Context) :
  forall i, once i = true ->
            Run_calls maxChanMem i cs
            = (i, repeat (Return None) (length cs), []).
Proof.
  induction cs as [|c cs IH]; intros i Hi; simpl; [reflexivity|].
  unfold Run, run. rewrite Hi, (IH i Hi). reflexivity.
Qed.

(** ** The flag [resetOnSuccess] *)

Lemma rerun_reset_flag (o : options) (b1 b2 : bool) (i : Instance)
  (err : option error) :
  exists j out,
    rerun (set_opts (Some (ResetOnSuccess b1 o)) i) err
    = (set_opts (Some (ResetOnSuccess b1 o)) j, out) /\
    rerun (set_opts (Some (ResetOnSuccess b2 o)) i) err
    = (set_opts (Some (ResetOnSuccess b2 o)) j, out).
Proof.
  destruct i as [r0 op0 ru fr on]. unfold rerun, set_opts; simpl.
  destruct err as [e|].
  - destruct (restartOnError (restartable o)); simpl.
    + destruct ((restartLimit (restartable o) =? 0)
                || (incr64 fr <? restartLimit (restartable o))).
      * destruct (backoff (restartable o));
          exists (Build_Instance r0 op0 ru (incr64 fr) on); eexists;
          split; reflexivity.
      * exists (Build_Instance r0 op0 ru (incr64 fr) on); eexists;
          split; reflexivity.
    + exists (Build_Instance r0 op0 ru (incr64 fr) on); eexists;
        split; reflexivity.
  - destruct (restartOnError (restartable o)); simpl;
      destruct (negb (runLimit (constrained o) =? 0)
                && (runLimit (constrained o) <=? incr64 ru));
      try (exists (Build_Instance r0 op0 (incr64 ru) 0 on); eexists;
           split; reflexivity);
      exists (Build_Instance r0 op0 (incr64 ru) fr on); eexists;
      split; reflexivity.
Qed.

Lemma loop_reset_flag (ctx : Context) (sel : nat -> selected)
  (now : nat -> Time) (o : options) (b1 b2 : bool) (fuel : nat) :
  forall i n after,
    observe (loop ctx sel now fuel
               (set_opts (Some (ResetOnSuccess b1 o)) i) n after)
    = observe (loop ctx sel now fuel
                 (set_opts (Some (ResetOnSuccess b2 o)) i) n after).
Proof.
  induction fuel as [|fuel IH]; intros i n after; simpl; [reflexivity|].
  destruct (sel n) as [|e]; [|reflexivity].
  unfold withContextTimeout. simpl.
  destruct (Runnable_run (inst_r i) n
              (if negb (timeout (constrained o) =? 0)
               then WithTimeout ctx (now n) (timeout (constrained o))
               else WithCancel ctx)) as [err|v]; [|reflexivity].
  destruct (rerun_reset_flag o b1 b2 i err) as (j & out & H1 & H2).
  rewrite H1, H2.
  destruct out as [[[|] after']|v]; try reflexivity.
  specialize (IH j (S n) after').
  destruct (loop ctx sel now fuel (set_opts (Some (ResetOnSuccess b1 o)) j)
              (S n) after') as [[[t1 j1] u1]|];
    destruct (loop ctx sel now fuel (set_opts (Some (ResetOnSuccess b2 o)) j)
                (S n) after') as [[[t2 j2] u2]|];
    simpl in IH |- *; try discriminate; try reflexivity.
  inversion IH; subst. reflexivity.
Qed.

(** ** The claims *)

(** The restart decision with restart enabled, no backoff set and restarts
    left: the call through the nil [backoff] panics. *)
Lemma rerun_nil_backoff (i : Instance) (o : options) (e : error) :
  inst_opts i = Some o ->
  restartOnError (restartable o) = true ->
  backoff (restartable o) = None ->
  restartLimit (restartable o) = 0 ->
  rerun i (Some e) = (set_failedRuns (incr64 (failedRuns i)) i, Panic nilFuncCall).
Proof.
  intros Ho Hre Hb Hl. unfold rerun. rewrite Ho, Hre, Hb, Hl. reflexivity.
Qed.

(** C1, on the code: with restart enabled by [Restart(true)] alone, the
    backoff is left nil; after the first failed execution [rerun] does not
    schedule a rerun with zero delay but panics on the call of the nil
    backoff, and the goroutine of [runCh] dies of that panic after one
    execution. *)
Theorem rerun_unset_backoff_faults :
  rerun (New (expectations [Return (Some (testError 1))]) [Restart true])
        (Some (testError 1))
  = (set_failedRuns 1
       (New (expectations [Return (Some (testError 1))]) [Restart true]),
     Panic nilFuncCall) /\
  checked (runCh (Caller None) never_done test_clock 10
             (New (expectations [Return (Some (testError 1))]) [Restart true]))
  = Some (1%nat, [testError 1], Panics nilFuncCall).
Proof. split; reflexivity. Qed.

(** C2: after a successful execution (nil error), with restart-on-failure
    enabled, [rerun] counts the run and leaves the failure counter at zero,
    whichever value the flag [resetOnSuccess] has. *)
Theorem rerun_success_resets_failedRuns (i : Instance) (o : options)
  (reset : bool) :
  inst_opts i = Some (ResetOnSuccess reset o) ->
  restartOnError (restartable o) = true ->
  failedRuns (fst (rerun i None)) = 0 /\
  runs (fst (rerun i None)) = incr64 (runs i) /\
  exists ra, snd (rerun i None) = Return ra.
Proof.
  intros Ho Hre. unfold rerun. rewrite Ho. simpl. rewrite Hre.
  destruct (negb (runLimit (constrained o) =? 0) && _);
    simpl; repeat split; try reflexivity; eexists; reflexivity.
Qed.

(** C3: with recurrence enabled, a run limit [N > 0] and a runnable that
    always succeeds, on a fresh instance whose parent context is not done
    during the run, [runCh] calls the runnable exactly [N] times, sends no
    error, and closes the channel as its last step, although recurrence
    alone would go on. *)
Theorem recurring_runs_until_limit (ctx : Context) (sel : nat -> selected)
  (now : nat -> Time) (f : nat -> Context -> outcome (option error))
  (o : options) (i : Instance) (N : Z) (fuel : nat) :
  inst_r i = Some f ->
  inst_opts i = Some o ->
  runs i = 0 ->
  recur (recurring o) = true ->
  runLimit (constrained o) = N ->
  0 < N < uint64_modulus ->
  (forall n c, f n c = Return None) ->
  (forall n, (n < Z.to_nat N)%nat -> sel n = TimerFired) ->
  (Z.to_nat N <= fuel)%nat ->
  exists tr i',
    runCh ctx sel now fuel i = Some (tr, i', Returns) /\
    executions tr = Z.to_nat N /\
    stream tr = [] /\
    closes_last tr /\
    runs i' = N.
Proof.
  intros Hr Ho Hruns Hrec HN Hpos Hf Hsel Hfuel.
  destruct (Z.to_nat N) as [|m] eqn:Hm; [lia|].
  destruct (loop_success_run ctx sel now f o m Hrec) with
    (fuel := fuel) (i := i) (n := O) (after := 0)
    as (tr & i' & Hl & He & Hs & Hfin); auto; try lia.
  - intros j Hj. apply Hsel. simpl. lia.
  - exists (tr ++ [EvClose]), i'.
    unfold runCh, runCh_from. rewrite Hl. simpl.
    rewrite executions_app, stream_app, He, Hs. simpl.
    repeat split; auto; try lia.
    apply closes_last_intro. apply (loop_no_close _ _ _ _ _ _ _ _ _ _ Hl).
Qed.

(** C4: with restart-on-failure enabled, a restart limit [N > 0] set by the
    options of the package, and a runnable that always fails, on the
    instance [New] builds, with a parent context that is not done during
    the run, [runCh] calls the runnable exactly [N] times, sends the [N]
    errors in the order they were returned, and closes the channel as its
    last step. *)
Theorem restart_runs_until_limit (ctx : Context) (sel : nat -> selected)
  (now : nat -> Time) (f : nat -> Context -> outcome (option error))
  (errs : nat -> error) (os : list Option) (N : Z) (fuel : nat) :
  Forall PackageOption os ->
  restartOnError (restartable (apply_options os new_options)) = true ->
  restartLimit (restartable (apply_options os new_options)) = N ->
  0 < N ->
  (forall n c, f n c = Return (Some (errs n))) ->
  (forall n, (n < Z.to_nat N)%nat -> sel n = TimerFired) ->
  (Z.to_nat N <= fuel)%nat ->
  exists tr i',
    runCh ctx sel now fuel (New (Some f) os) = Some (tr, i', Returns) /\
    executions tr = Z.to_nat N /\
    stream tr = map errs (seq 0 (Z.to_nat N)) /\
    closes_last tr.
Proof.
  intros Hos Hre HN Hpos Hf Hsel Hfuel.
  destruct (New_restartLimit_backoff (Some f) os Hos) as (o & Ho & Hb & Hrange).
  simpl in Ho. inversion Ho as [Ho']. clear Ho.
  rewrite Ho' in Hre, HN.
  destruct (backoff (restartable o)) as [b|] eqn:Hbo;
    [|exfalso; apply Hb; [lia | reflexivity]].
  destruct (Z.to_nat N) as [|m] eqn:Hm; [lia|].
  destruct (loop_failure_run ctx sel now f errs o b m Hre) with
    (fuel := fuel) (i := New (Some f) os) (n := O) (after := 0)
    as (tr & i' & Hl & He & Hs & Hfin); auto; try lia.
  - simpl. rewrite Ho'. reflexivity.
  - simpl. lia.
  - simpl. lia.
  - intros j Hj. apply Hsel. simpl. lia.
  - exists (tr ++ [EvClose]), i'.
    unfold runCh, runCh_from. rewrite Hl. simpl.
    rewrite executions_app, stream_app, He, Hs, app_nil_r. simpl.
    repeat split; auto; try lia.
    apply closes_last_intro. apply (loop_no_close _ _ _ _ _ _ _ _ _ _ Hl).
Qed.

(** The same for an [options] value written as a literal, as the tests do,
    when it has a backoff (or the limit is one, so that no backoff is ever
    called). *)
Lemma literal_restarts_until_limit (ctx : Context)
  (sel : nat -> selected) (now : nat -> Time)
  (f : nat -> Context -> outcome (option error)) (errs : nat -> error)
  (o : options) (i : Instance) (N : Z) (fuel : nat) :
  inst_r i = Some f ->
  inst_opts i = Some o ->
  failedRuns i = 0 ->
  restartOnError (restartable o) = true ->
  restartLimit (restartable o) = N ->
  0 < N < uint64_modulus ->
  (N <> 1 -> backoff (restartable o) <> None) ->
  (forall n c, f n c = Return (Some (errs n))) ->
  (forall n, (n < Z.to_nat N)%nat -> sel n = TimerFired) ->
  (Z.to_nat N <= fuel)%nat ->
  exists tr i',
    runCh ctx sel now fuel i = Some (tr, i', Returns) /\
    executions tr = Z.to_nat N /\
    stream tr = map errs (seq 0 (Z.to_nat N)) /\
    closes_last tr.
Proof.
  intros Hr Ho Hfr Hre HN Hpos Hb Hf Hsel Hfuel.
  destruct (Z.to_nat N) as [|m] eqn:Hm; [lia|].
  assert (Hbo : exists b, m <> O -> backoff (restartable o) = Some b).
  { destruct (backoff (restartable o)) as [b|].
    - exists b. reflexivity.
    - exists (fun _ => 0). intros Hm0. exfalso. apply Hb; [lia | reflexivity]. }
  destruct Hbo as (b & Hbo).
  destruct (loop_failure_run ctx sel now f errs o b m Hre) with
    (fuel := fuel) (i := i) (n := O) (after := 0)
    as (tr & i' & Hl & He & Hs & Hfin); auto; try lia.
  - intros j Hj. apply Hsel. simpl. lia.
  - exists (tr ++ [EvClose]), i'.
    unfold runCh, runCh_from. rewrite Hl. simpl.
    rewrite executions_app, stream_app, He, Hs, app_nil_r. simpl.
    repeat split; auto; try lia.
    apply closes_last_intro. apply (loop_no_close _ _ _ _ _ _ _ _ _ _ Hl).
Qed.

(** Such a literal with a limit above one and no backoff stops at the first
    failure, on the call of the nil backoff. *)
Example literal_limit_without_backoff :
  checked (runCh (Caller None) never_done test_clock 10
             (literal (expectations [Return (Some (testError 1));
                                     Return (Some (testError 2));
                                     Return (Some (testError 3))])
                (Some (set_restartable
                         (fun _ => {| restartOnError := true;
                                      restartLimit := 3;
                                      resetOnSuccess := false;
                                      backoff := None |})
                         new_options))))
  = Some (1%nat, [testError 1], Panics nilFuncCall).
Proof. reflexivity. Qed.

(** C5: at whichever pass of the loop and in whichever state, if the select
    of the wait receives from the done channel of the parent context,
    [runCh] sends the error of the parent context once, or nothing when
    that error is nil, does not call the runnable any more, closes the
    channel and returns, the counters untouched. *)
Theorem cancellation_during_wait (ctx : Context) (sel : nat -> selected)
  (now : nat -> Time) (fuel : nat) (i : Instance) (n : nat)
  (after : Duration) (e : option error) :
  sel n = Done e ->
  exists tr,
    runCh_from ctx sel now (S fuel) i n after = Some (tr, i, Returns) /\
    executions tr = O /\
    stream tr = match e with Some e' => [e'] | None => [] end /\
    closes_last tr.
Proof.
  intros Hs. exists ((EvWait after :: send_if e) ++ [EvClose]).
  unfold runCh_from. simpl. rewrite Hs. simpl.
  split; [reflexivity|].
  rewrite executions_app, stream_app, executions_send_if, stream_send_if.
  simpl. rewrite app_nil_r.
  repeat split; auto.
  change (EvWait after :: send_if e ++ [EvClose])
    with ((EvWait after :: send_if e) ++ [EvClose]).
  apply closes_last_intro. simpl. apply no_close_send_if.
Qed.



(** C7, as stated, fails for a buffer size the runtime refuses: with
    [WithChanBuffer(1 << 62)] the [make] of the first [Run] panics, whatever
    the platform accepts, so the first call returns no channel and starts
    no goroutine. *)
Lemma oversized_buffer_start_panics :
  Run (2 ^ 48) (New (expectations [Return None]) [WithChanBuffer (2 ^ 62)])
    (Caller None)
  = (set_once true
       (New (expectations [Return None]) [WithChanBuffer (2 ^ 62)]),
     Panic makechanPanic, []) /\
  ~ (exists maxChanMem,
       forall (i : Instance) (c : Context),
         once i = false ->
         exists ch g,
           Run maxChanMem i c = (set_once true i, Return (Some ch), [g])).
Proof.
  split; [reflexivity|].
  intros (m & H).
  destruct (H (New (expectations [Return None]) [WithChanBuffer (2 ^ 62)])
              (Caller None) eq_refl) as (ch & g & Hrun).
  unfold Run, run in Hrun. simpl in Hrun. discriminate Hrun.
Qed.

(** C7, amended: on an instance that has not been started, when the
    runtime accepts the buffer size of the options, the first call of [Run]
    makes the channel, starts the one goroutine of [runCh] and returns the
    channel; when the runtime refuses the size, the first call panics,
    returns no channel and starts nothing.  In both cases the start guard
    is used up: every later call returns the nil channel and starts
    nothing. *)
Theorem Run_starts_once (maxChanMem : Z) (i : Instance) (c : Context)
  (cs : list Context) :
  once i = false ->
  (0 <= chanSize i /\ 16 * chanSize i < uint64_modulus /\
   16 * chanSize i <= maxChanMem ->
   Run_calls maxChanMem i (c :: cs)
   = (set_once true i,
      Return (Some {| chan_cap := chanSize i |})
      :: repeat (Return None) (length cs),
      [GoRunCh c {| chan_cap := chanSize i |}])) /\
  (chanSize i < 0 \/ uint64_modulus <= 16 * chanSize i \/
   maxChanMem < 16 * chanSize i ->
   Run_calls maxChanMem i (c :: cs)
   = (set_once true i,
      Panic makechanPanic :: repeat (Return None) (length cs),
      [])).
Proof.
  intros Hi. split.
  - intros (H0 & H1 & H2). simpl. unfold Run, run. rewrite Hi.
    rewrite (makechan_accepts maxChanMem (chanSize i) H0 H1 H2).
    rewrite (Run_calls_started maxChanMem cs (set_once true i)); reflexivity.
  - intros H. simpl. unfold Run, run. rewrite Hi.
    rewrite (makechan_refuses maxChanMem (chanSize i) H).
    rewrite (Run_calls_started maxChanMem cs (set_once true i)); reflexivity.
Qed.

(** C8, as stated, fails: with panic containment enabled the panic of the
    nil runnable is recovered by [runCh] and sent on the error channel as a
    [RunnablePanic] that carries the sentinel; so it is not true that for
    every configuration the goroutine dies of the sentinel and the channel
    carries nothing. *)
Lemma nil_runnable_surfaced_under_containment :
  checked (runCh (Caller None) never_done test_clock 1
             (New None [Recover true]))
  = Some (1%nat, [RunnablePanic (VString NilRunnable)], Returns) /\
  ~ (forall o : options,
       checked (runCh (Caller None) never_done test_clock 1
                  (literal None (Some o)))
       = Some (1%nat, [], Panics (VString NilRunnable))).
Proof.
  split; [reflexivity|].
  intros H. specialize (H (Recover true new_options)). discriminate H.
Qed.

(** C8, amended: the call of a nil runnable never returns an error, it
    panics at once with the sentinel "attempted to run a nil Runnable".
    Without panic containment (or without options) the panic unwinds
    [runCh], which closes the channel without having sent anything, and
    kills the goroutine; with panic containment the panic is recovered and
    sent on the channel as the [RunnablePanic] of the sentinel, and the
    goroutine returns. *)
Theorem nil_runnable_panics (ctx : Context) (sel : nat -> selected)
  (now : nat -> Time) (fuel : nat) (i : Instance) (n : nat)
  (after : Duration) :
  inst_r i = None ->
  sel n = TimerFired ->
  NilRunnable = "attempted to run a nil Runnable"%string /\
  (forall k c, Runnable_run (inst_r i) k c = Panic (VString NilRunnable)) /\
  exists tr,
    executions tr = 1%nat /\ stream tr = [] /\
    existsb is_close tr = false /\
    runCh_from ctx sel now (S fuel) i n after
    = if options_calm (inst_opts i)
      then Some (tr ++ [EvSend (RunnablePanic (VString NilRunnable)); EvClose],
                 i, Returns)
      else Some (tr ++ [EvClose], i, Panics (VString NilRunnable)).
Proof.
  intros Hr Hs. split; [reflexivity|]. split.
  - intros k c. rewrite Hr. reflexivity.
  - exists [EvWait after; EvCall n (withContextTimeout i ctx (now n));
            EvCancel (withContextTimeout i ctx (now n))].
    repeat split.
    unfold runCh_from. simpl. rewrite Hs, Hr. simpl.
    destruct (options_calm (inst_opts i)); reflexivity.
Qed.

(** C9, as stated, fails in two ways.  A negative timeout is not [> 0], yet
    [withContextTimeout] puts the deadline [now + T] on the child, since
    its test is [timeout != 0]; and with a positive timeout under a parent
    whose deadline is earlier than [now + T], the child has the deadline
    of the parent, not [now + T]. *)
Lemma negative_timeout_adds_deadline :
  Deadline
    (withContextTimeout (New (expectations [Return None]) [Timeout (-1)])
       (Caller None) 0)
  = Some (0 + -1) /\
  Deadline
    (withContextTimeout (New (expectations [Return None]) [Timeout 5])
       (Caller (Some 3)) 0)
  = Some 3 /\
  ~ (forall (i : Instance) (ctx : Context) (t : Time),
       Deadline (withContextTimeout i ctx t)
       = Some (t + configured_timeout i)
       <-> configured_timeout i > 0).
Proof.
  split; [reflexivity|]. split; [reflexivity|].
  intros H.
  specialize (H (New (expectations [Return None]) [Timeout (-1)])
                (Caller None) 0).
  destruct H as [H _]. specialize (H eq_refl). discriminate H.
Qed.

(** C9, amended: at every pass the context handed to the runnable is a
    child of the parent context.  With a configured timeout [T] that is not
    zero, its deadline is the earlier of [now + T] and the deadline of the
    parent, so [now + T] when the parent has no deadline (a negative [T]
    gives a deadline in the past); with [T = 0] or without options no
    deadline is added: the child is only cancellable and has the deadline
    of the parent.  So under a parent without deadline the child has the
    deadline [now + T] exactly when [T] is not zero.  Its cancel func is
    called right after the call of the runnable, whether that call returned
    or panicked, so that in every run the contexts released are the
    contexts handed out. *)
Theorem child_context_deadline_and_release (ctx : Context)
  (sel : nat -> selected) (now : nat -> Time) (i : Instance) (n : nat) :
  parent_of (withContextTimeout i ctx (now n)) = Some ctx /\
  (configured_timeout i <> 0 ->
   Deadline (withContextTimeout i ctx (now n))
   = Some (match Deadline ctx with
           | Some cur => Z.min cur (now n + configured_timeout i)
           | None => now n + configured_timeout i
           end)) /\
  (configured_timeout i = 0 ->
   withContextTimeout i ctx (now n) = WithCancel ctx /\
   Deadline (withContextTimeout i ctx (now n)) = Deadline ctx) /\
  (Deadline ctx = None ->
   (Deadline (withContextTimeout i ctx (now n))
    = Some (now n + configured_timeout i)
    <-> configured_timeout i <> 0)) /\
  execute ctx now i n
  = ([EvCall n (withContextTimeout i ctx (now n));
      EvCancel (withContextTimeout i ctx (now n))],
     Runnable_run (inst_r i) n (withContextTimeout i ctx (now n))) /\
  (forall fuel after tr i' u,
     runCh_from ctx sel now fuel i n after = Some (tr, i', u) ->
     released tr = handed tr).
Proof.
  assert (Hrel : forall fuel after tr i' u,
             runCh_from ctx sel now fuel i n after = Some (tr, i', u) ->
             released tr = handed tr)
    by (intros fuel after tr i' u;
        apply (runCh_from_released_handed ctx sel now)).
  assert (Hchild : forall d,
             parent_of (WithDeadline ctx d) = Some ctx /\
             Deadline (WithDeadline ctx d)
             = Some (match Deadline ctx with
                     | Some cur => Z.min cur d
                     | None => d
                     end)).
  { intros d. unfold WithDeadline.
    destruct (Deadline ctx) as [cur|] eqn:Hd; [|split; reflexivity].
    destruct (Z.ltb_spec cur d) as [Hlt|Hge]; simpl.
    - rewrite Hd. split; [reflexivity|]. f_equal. lia.
    - split; [reflexivity|]. f_equal. lia. }
  unfold execute, withContextTimeout, configured_timeout, WithTimeout.
  destruct (inst_opts i) as [o|].
  - destruct (Z.eqb_spec (timeout (constrained o)) 0) as [Ht|Ht]; simpl.
    + repeat split; auto; try lia; intros; congruence.
    + destruct (Hchild (now n + timeout (constrained o))) as (Hp & Hdl).
      repeat split; auto; try lia; intros; try congruence.
      rewrite Hdl.
      match goal with H : Deadline ctx = None |- _ => rewrite H end.
      reflexivity.
  - simpl. repeat split; auto; try lia; intros; congruence.
Qed.

(** C10: two configurations that differ only in the flag [resetOnSuccess]
    are not told apart by the engine: for every runnable, every parent
    context and every state of the instance, [rerun] takes the same
    decision with the same delay and leaves the same counters, and [runCh]
    goes through the same events (waits and delays, calls, errors sent,
    close) and ends the same way with the same counters. *)
Theorem resetOnSuccess_never_read (ctx : Context) (sel : nat -> selected)
  (now : nat -> Time) (fuel : nat) (i : Instance) (o : options)
  (b1 b2 : bool) (err : option error) :
  snd (rerun (set_opts (Some (ResetOnSuccess b1 o)) i) err)
  = snd (rerun (set_opts (Some (ResetOnSuccess b2 o)) i) err) /\
  runs (fst (rerun (set_opts (Some (ResetOnSuccess b1 o)) i) err))
  = runs (fst (rerun (set_opts (Some (ResetOnSuccess b2 o)) i) err)) /\
  failedRuns (fst (rerun (set_opts (Some (ResetOnSuccess b1 o)) i) err))
  = failedRuns (fst (rerun (set_opts (Some (ResetOnSuccess b2 o)) i) err)) /\
  observe (runCh ctx sel now fuel (set_opts (Some (ResetOnSuccess b1 o)) i))
  = observe (runCh ctx sel now fuel (set_opts (Some (ResetOnSuccess b2 o)) i)).
Proof.
  destruct (rerun_reset_flag o b1 b2 i err) as (j & out & H1 & H2).
  rewrite H1, H2. simpl. repeat split.
  unfold runCh, runCh_from. simpl.
  pose proof (loop_reset_flag ctx sel now o b1 b2 fuel i O 0) as H.
  destruct (loop ctx sel now fuel (set_opts (Some (ResetOnSuccess b1 o)) i)
              O 0) as [[[t1 j1] u1]|];
    destruct (loop ctx sel now fuel (set_opts (Some (ResetOnSuccess b2 o)) i)
                O 0) as [[[t2 j2] u2]|];
    simpl in H |- *; try discriminate; try reflexivity.
  inversion H; subst.
  destruct u2; [|destruct (calm (recoverable o))]; simpl; congruence.
Qed.

(** ** The theorems at concrete inputs *)

Lemma rerun_success_resets_failedRuns_witness :
  failedRuns
    (fst (rerun (set_failedRuns 2
                   (literal (expectations [Return None])
                      (Some (ResetOnSuccess false
                               (RestartLimit 3 None
                                  (Restart true new_options))))))
            None)) = 0 /\
  runs
    (fst (rerun (set_failedRuns 2
                   (literal (expectations [Return None])
                      (Some (ResetOnSuccess false
                               (RestartLimit 3 None
                                  (Restart true new_options))))))
            None)) = incr64 0 /\
  exists ra,
    snd (rerun (set_failedRuns 2
                  (literal (expectations [Return None])
                     (Some (ResetOnSuccess false
                              (RestartLimit 3 None
                                 (Restart true new_options))))))
           None) = Return ra.
Proof.
  apply (rerun_success_resets_failedRuns
           (set_failedRuns 2
              (literal (expectations [Return None])
                 (Some (ResetOnSuccess false
                          (RestartLimit 3 None (Restart true new_options))))))
           (RestartLimit 3 None (Restart true new_options)) false);
    reflexivity.
Defined.

Lemma recurring_runs_until_limit_witness :
  exists tr i',
    runCh (Caller None) never_done test_clock 3
      (literal (Some (fun _ _ => Return None))
         (Some (RunLimit 3 (Recur true new_options))))
    = Some (tr, i', Returns) /\
    executions tr = Z.to_nat 3 /\
    stream tr = [] /\
    closes_last tr /\
    runs i' = 3.
Proof.
  apply (recurring_runs_until_limit (Caller None) never_done test_clock
           (fun _ _ => Return None) (RunLimit 3 (Recur true new_options))
           (literal (Some (fun _ _ => Return None))
              (Some (RunLimit 3 (Recur true new_options))))
           3 3).
  - reflexivity.
  - reflexivity.
  - reflexivity.
  - reflexivity.
  - reflexivity.
  - unfold uint64_modulus. lia.
  - intros n c. reflexivity.
  - intros n Hn. reflexivity.
  - simpl. lia.
Defined.

Lemma restart_runs_until_limit_witness :
  exists tr i',
    runCh (Caller None) never_done test_clock 3
      (New (Some (fun n _ => Return (Some (testError (Z.of_nat n)))))
         [Restart true; RestartLimit 3 None])
    = Some (tr, i', Returns) /\
    executions tr = Z.to_nat 3 /\
    stream tr = map (fun n => testError (Z.of_nat n)) (seq 0 (Z.to_nat 3)) /\
    closes_last tr.
Proof.
  apply (restart_runs_until_limit (Caller None) never_done test_clock
           (fun n _ => Return (Some (testError (Z.of_nat n))))
           (fun n => testError (Z.of_nat n))
           [Restart true; RestartLimit 3 None] 3 3).
  - constructor; [apply PO_Restart|].
    constructor; [apply PO_RestartLimit; unfold uint64_modulus; lia|].
    constructor.
  - reflexivity.
  - reflexivity.
  - lia.
  - intros n c. reflexivity.
  - intros n Hn. reflexivity.
  - simpl. lia.
Defined.

Lemma cancellation_during_wait_witness :
  exists tr,
    runCh_from (Caller None) (fun _ => Done (Some Canceled)) test_clock 1
      (New (expectations [Return None]) [Recur true]) 0%nat 0
    = Some (tr, New (expectations [Return None]) [Recur true], Returns) /\
    executions tr = O /\
    stream tr = [Canceled] /\
    closes_last tr.
Proof.
  apply (cancellation_during_wait (Caller None) (fun _ => Done (Some Canceled))
           test_clock 0 (New (expectations [Return None]) [Recur true])
           0%nat 0 (Some Canceled)).
  reflexivity.
Defined.


Lemma Run_starts_once_witness :
  Run_calls (2 ^ 40) (New (expectations [Return None]) [WithChanBuffer 2])
    [Caller None; Caller None; Caller (Some 5)]
  = (set_once true (New (expectations [Return None]) [WithChanBuffer 2]),
     [Return (Some {| chan_cap := 2 |}); Return None; Return None],
     [GoRunCh (Caller None) {| chan_cap := 2 |}]).
Proof.
  apply (Run_starts_once (2 ^ 40)
           (New (expectations [Return None]) [WithChanBuffer 2])
           (Caller None) [Caller None; Caller (Some 5)]).
  - reflexivity.
  - repeat split; vm_compute; congruence.
Defined.

Lemma nil_runnable_panics_witness :
  NilRunnable = "attempted to run a nil Runnable"%string /\
  (forall k c,
     Runnable_run (inst_r (New None [Recur true])) k c
     = Panic (VString NilRunnable)) /\
  exists tr,
    executions tr = 1%nat /\ stream tr = [] /\
    existsb is_close tr = false /\
    runCh_from (Caller None) never_done test_clock 1 (New None [Recur true])
      0%nat 0
    = if options_calm (inst_opts (New None [Recur true]))
      then Some (tr ++ [EvSend (RunnablePanic (VString NilRunnable)); EvClose],
                 New None [Recur true], Returns)
      else Some (tr ++ [EvClose], New None [Recur true],
                 Panics (VString NilRunnable)).
Proof.
  apply (nil_runnable_panics (Caller None) never_done test_clock 0
           (New None [Recur true]) 0%nat 0);
    reflexivity.
Defined.

Lemma child_context_deadline_and_release_witness :
  Deadline
    (withContextTimeout
       (New (expectations [Return None]) [Timeout 3000000000])
       (Caller (Some 2000000000)) (test_clock 0))
  = Some (Z.min 2000000000 (test_clock 0 + 3000000000)) /\
  released
    [EvWait 0;
     EvCall 0 (timerCtx (Caller None) 3000000000);
     EvCancel (timerCtx (Caller None) 3000000000);
     EvClose]
  = handed
      [EvWait 0;
       EvCall 0 (timerCtx (Caller None) 3000000000);
       EvCancel (timerCtx (Caller None) 3000000000);
       EvClose].
Proof.
  split.
  - destruct (child_context_deadline_and_release (Caller (Some 2000000000))
                never_done test_clock
                (New (expectations [Return None]) [Timeout 3000000000]) 0%nat)
      as (_ & Hd & _).
    apply Hd. discriminate.
  - destruct (child_context_deadline_and_release (Caller None) never_done
                test_clock
                (New (expectations [Return None]) [Timeout 3000000000]) 0%nat)
      as (_ & _ & _ & _ & _ & Hrel).
    apply (Hrel 1%nat 0 _
             (set_runs 1
                (New (expectations [Return None]) [Timeout 3000000000]))
             Returns).
    reflexivity.
Defined.

(** * Further properties *)

(** ** The options of [New] *)

Lemma apply_options_middle (os os' : list Option) (a b : list Option)
  (o : options) :
  apply_options a (apply_options os o) = apply_options b (apply_options os o) ->
  apply_options (os ++ a ++ os') o = apply_options (os ++ b ++ os') o.
Proof.
  unfold apply_options. intros H.
  rewrite !fold_left_app. f_equal. exact H.
Qed.

(** X1: of two options of the same kind given one right after the other to
    [New], only the later one counts. *)
Theorem New_later_option_overrides (r : Runnable) (a b : Option) (k : kind)
  (os os' : list Option) :
  HasKind a k -> HasKind b k ->
  New r (os ++ a :: b :: os') = New r (os ++ b :: os').
Proof.
  intros Ha Hb. unfold New. do 2 f_equal.
  apply (apply_options_middle os os' [a; b] [b]).
  unfold apply_options; simpl.
  destruct Ha; inversion Hb; subst; reflexivity.
Qed.

(** X2: two neighbouring options of different kinds can be given to [New]
    in either order. *)
Theorem New_options_of_different_kinds_commute (r : Runnable) (a b : Option)
  (ka kb : kind) (os os' : list Option) :
  HasKind a ka -> HasKind b kb -> ka <> kb ->
  New r (os ++ a :: b :: os') = New r (os ++ b :: a :: os').
Proof.
  intros Ha Hb Hk. unfold New. do 2 f_equal.
  apply (apply_options_middle os os' [a; b] [b; a]).
  unfold apply_options; simpl.
  destruct Ha; destruct Hb; try (exfalso; apply Hk; reflexivity);
    reflexivity.
Qed.

(** Once a backoff is set, no option of the package unsets it; and
    [RestartLimit] sets one. *)
Lemma apply_options_backoff (os : list Option) :
  Forall PackageOption os ->
  forall o,
    backoff (restartable o) <> None \/
    (exists n f, In (RestartLimit n f) os) ->
    backoff (restartable (apply_options os o)) <> None.
Proof.
  unfold apply_options.
  induction 1 as [|opt os Hopt _ IH]; intros o Hb; simpl.
  - destruct Hb as [Hb|(n & f & [])]. exact Hb.
  - apply IH. destruct Hb as [Hb|(n & f & [Heq|Hin])].
    + left. destruct Hopt; simpl; auto. destruct f; discriminate.
    + left. subst opt. simpl. destruct f; discriminate.
    + right. exists n, f. exact Hin.
Qed.

(** [rerun] panics only on a nil backoff. *)
Lemma rerun_returns_with_backoff (i : Instance) (o : options)
  (err : option error) :
  inst_opts i = Some o ->
  backoff (restartable o) <> None ->
  exists ra, snd (rerun i err) = Return ra.
Proof.
  intros Ho Hb. unfold rerun. rewrite Ho.
  destruct err as [e|].
  - destruct (restartOnError (restartable o)); [|eexists; reflexivity].
    destruct (_ || _); [|eexists; reflexivity].
    destruct (backoff (restartable o)); [eexists; reflexivity|].
    exfalso. apply Hb. reflexivity.
  - destruct (restartOnError (restartable o));
      destruct (negb _ && _); eexists; reflexivity.
Qed.

(** X3: when one of the options given to [New] is a [RestartLimit], with a
    backoff or with nil, the restart decision never panics, whatever the
    other options, the counters and the outcome of the execution. *)
Theorem rerun_never_faults_after_RestartLimit (r : Runnable)
  (os : list Option) (limit : Z) (backoffFn : BackoffFn) (i : Instance)
  (err : option error) :
  Forall PackageOption os ->
  In (RestartLimit limit backoffFn) os ->
  inst_opts i = inst_opts (New r os) ->
  exists ra, snd (rerun i err) = Return ra.
Proof.
  intros Hos Hin Ho.
  apply (rerun_returns_with_backoff i (apply_options os new_options) err).
  - exact Ho.
  - apply apply_options_backoff; [exact Hos|].
    right. exists limit, backoffFn. exact Hin.
Qed.

(** ** Every run that ends *)

Lemma withContextTimeout_opts (i j : Instance) (ctx : Context) (t : Time) :
  inst_opts j = inst_opts i ->
  withContextTimeout j ctx t = withContextTimeout i ctx t.
Proof. unfold withContextTimeout. intros H. rewrite H. reflexivity. Qed.

Lemma call_outcome_same (ctx : Context) (now : nat -> Time) (i j : Instance)
  (n : nat) :
  inst_r j = inst_r i -> inst_opts j = inst_opts i ->
  call_outcome ctx now j n = call_outcome ctx now i n.
Proof.
  intros Hr Ho. unfold call_outcome.
  rewrite Hr, (withContextTimeout_opts i j ctx (now n) Ho). reflexivity.
Qed.

Lemma send_if_returned (err : option error) :
  stream (send_if err) = returned_error (Return err).
Proof. destruct err; reflexivity. Qed.

(** X4: whenever the goroutine of [runCh] ends, by a return, by a recovered
    panic or by a panic that kills it, it has closed the error channel
    exactly once, and that was its last step. *)
Theorem runCh_closes_exactly_once (ctx : Context) (sel : nat -> selected)
  (now : nat -> Time) (fuel : nat) (i : Instance) (n : nat)
  (after : Duration) (tr : list event) (i' : Instance) (u : unwinding) :
  runCh_from ctx sel now fuel i n after = Some (tr, i', u) ->
  closes_last tr.
Proof.
  unfold runCh_from. intros H.
  destruct (loop ctx sel now fuel i n after) as [[[t j] w]|] eqn:Hl;
    [|discriminate].
  pose proof (loop_no_close _ _ _ _ _ _ _ _ _ _ Hl) as Hnc.
  simpl in H.
  destruct w as [|v]; [|destruct (options_calm (inst_opts i))];
    inversion H; subst.
  - apply closes_last_intro. exact Hnc.
  - rewrite app_assoc. apply closes_last_intro.
    rewrite existsb_app, Hnc. destruct (is_nil v); reflexivity.
  - apply closes_last_intro. exact Hnc.
Qed.

(** The errors the first [k] calls from the call number [n] on return. *)
Lemma forwarded_step (ctx : Context) (now : nat -> Time) (i : Instance)
  (n k : nat) :
  flat_map (fun j => returned_error (call_outcome ctx now i j)) (seq n (S k))
  = returned_error (call_outcome ctx now i n)
    ++ flat_map (fun j => returned_error (call_outcome ctx now i j))
         (seq (S n) k).
Proof. reflexivity. Qed.

(** [rerun] panics only after a failure, on the call of a nil backoff. *)
Lemma rerun_panic_nil_backoff (i i' : Instance) (err : option error)
  (v : value) :
  rerun i err = (i', Panic v) ->
  v = nilFuncCall /\
  (exists e, err = Some e) /\
  (exists o, inst_opts i = Some o /\ backoff (restartable o) = None).
Proof.
  unfold rerun. intros H.
  destruct (inst_opts i) as [o|]; [|discriminate].
  destruct err as [e|].
  - destruct (restartOnError (restartable o)); [|discriminate].
    destruct (_ || _); [|discriminate].
    destruct (backoff (restartable o)) eqn:Hb; [discriminate|].
    inversion H; subst.
    split; [reflexivity|]. split; [exists e; reflexivity|].
    exists o. split; [reflexivity | exact Hb].
  - destruct (restartOnError (restartable o));
      destruct (negb _ && _); discriminate.
Qed.

(** The loop forwards the errors the calls return, and at most the error
    of the parent context after them; when it is left by a panic, the
    panic is that of the last call, or that of the restart decision after
    the last call. *)
Lemma loop_forwards (ctx : Context) (sel : nat -> selected)
  (now : nat -> Time) (fuel : nat) :
  forall i n after tr i' u,
    loop ctx sel now fuel i n after = Some (tr, i', u) ->
    exists k tail,
      executions tr = k /\
      handed tr = map (fun j => withContextTimeout i ctx (now j)) (seq n k) /\
      stream tr
      = flat_map (fun j => returned_error (call_outcome ctx now i j)) (seq n k)
        ++ tail /\
      (tail = [] \/
       u = Returns /\
       exists e, sel (n + k)%nat = Done (Some e) /\ tail = [e]) /\
      (forall v, u = Panics v ->
         (0 < k)%nat /\
         (call_outcome ctx now i (n + k - 1) = Panic v \/
          v = nilFuncCall /\
          (exists e, call_outcome ctx now i (n + k - 1) = Return (Some e)) /\
          (exists o, inst_opts i = Some o /\
                     backoff (restartable o) = None))).
Proof.
  intros i n after tr i' u H.
  apply (loop_passes_ind ctx sel now
           (fun i n _ res =>
              exists k tail,
                executions (fst (fst res)) = k /\
                handed (fst (fst res))
                = map (fun j => withContextTimeout i ctx (now j)) (seq n k) /\
                stream (fst (fst res))
                = flat_map (fun j => returned_error (call_outcome ctx now i j))
                    (seq n k) ++ tail /\
                (tail = [] \/
                 snd res = Returns /\
                 exists e, sel (n + k)%nat = Done (Some e) /\ tail = [e]) /\
                (forall v, snd res = Panics v ->
                   (0 < k)%nat /\
                   (call_outcome ctx now i (n + k - 1) = Panic v \/
                    v = nilFuncCall /\
                    (exists e, call_outcome ctx now i (n + k - 1)
                               = Return (Some e)) /\
                    (exists o, inst_opts i = Some o /\
                               backoff (restartable o) = None)))))
    in H; [exact H | | | | | ]; clear; intros; simpl in *.
  - exists O, (stream (send_if e)).
    split; [destruct e; reflexivity|].
    split; [destruct e; reflexivity|].
    split; [reflexivity|].
    split; [|discriminate].
    destruct e as [e|]; [right|left; reflexivity].
    split; [reflexivity|]. exists e. rewrite Nat.add_0_r.
    split; [assumption | reflexivity].
  - exists 1%nat, []. rewrite forwarded_step. unfold call_outcome at 1.
    rewrite H0. simpl.
    split; [reflexivity|]. split; [reflexivity|]. split; [reflexivity|].
    split; [left; reflexivity|].
    intros v0 Hv. inversion Hv; subst. split; [lia|]. left.
    replace (n + 1 - 1)%nat with n by lia. exact H0.
  - exists 1%nat, []. rewrite forwarded_step. unfold call_outcome at 1.
    rewrite H0. simpl. rewrite executions_send_if, send_if_returned.
    split; [reflexivity|].
    split; [destruct err; reflexivity|].
    split; [rewrite !app_nil_r; reflexivity|].
    split; [left; reflexivity|].
    intros v0 Hv. inversion Hv; subst. split; [lia|]. right.
    destruct (rerun_panic_nil_backoff _ _ _ _ H1) as (Hn & (e & He) & Hb).
    replace (n + 1 - 1)%nat with n by lia. subst err.
    split; [exact Hn|]. split; [exists e; exact H0 | exact Hb].
  - exists 1%nat, []. rewrite forwarded_step. unfold call_outcome at 1.
    rewrite H0. simpl. rewrite executions_send_if, send_if_returned.
    split; [reflexivity|].
    split; [destruct err; reflexivity|].
    split; [rewrite !app_nil_r; reflexivity|].
    split; [left; reflexivity | discriminate].
  - destruct H2 as (k & tail & He & Hh & Hs & Ht & Hp).
    pose proof (rerun_keeps i err) as (Hr' & Ho' & _).
    rewrite H1 in Hr', Ho'. simpl in Hr', Ho'.
    assert (Hflat :
              flat_map (fun j => returned_error (call_outcome ctx now i' j))
                (seq (S n) k)
              = flat_map (fun j => returned_error (call_outcome ctx now i j))
                  (seq (S n) k)).
    { apply flat_map_ext. intros j.
      rewrite (call_outcome_same ctx now i i' j Hr' Ho'). reflexivity. }
    assert (Hmap :
              map (fun j => withContextTimeout i' ctx (now j)) (seq (S n) k)
              = map (fun j => withContextTimeout i ctx (now j)) (seq (S n) k)).
    { apply map_ext. intros j. apply withContextTimeout_opts. exact Ho'. }
    rewrite Hflat in Hs. rewrite Hmap in Hh.
    exists (S k), tail. rewrite forwarded_step. unfold call_outcome at 1.
    rewrite H0.
    rewrite executions_app, handed_app, stream_app, executions_send_if.
    rewrite send_if_returned, He, Hh, Hs.
    replace (handed (send_if err)) with (@nil Context)
      by (destruct err; reflexivity).
    split; [reflexivity|].
    split; [reflexivity|].
    split; [rewrite app_assoc; reflexivity|].
    split.
    + destruct Ht as [Ht|(Hu & e & Hsel & Ht)]; [left; exact Ht|].
      right. split; [exact Hu|]. exists e. rewrite Nat.add_succ_r.
      split; assumption.
    + intros v Hv. destruct (Hp v Hv) as (Hk & Hsrc).
      split; [lia|].
      replace (n + S k - 1)%nat with (S n + k - 1)%nat by lia.
      rewrite <- (call_outcome_same ctx now i i' _ Hr' Ho').
      rewrite <- Ho'. exact Hsrc.
Qed.

(** X5: in every run that ends, the runnable is called with consecutive
    call numbers, each time with the child context derived from the parent
    at that pass, and the channel carries exactly the non-nil errors those
    calls returned, in the order of the calls (nil is never sent), followed
    by at most one more error: the error of the parent context when the
    run ended on its cancellation; or, under panic containment, the
    [RunnablePanic] of the non-nil value the last call panicked with, or of
    the runtime error of the restart decision when that panicked on a nil
    backoff after the last call had failed. *)
Theorem stream_forwards_returned_errors (ctx : Context)
  (sel : nat -> selected) (now : nat -> Time) (fuel : nat) (i : Instance)
  (n : nat) (after : Duration) (tr : list event) (i' : Instance)
  (u : unwinding) :
  runCh_from ctx sel now fuel i n after = Some (tr, i', u) ->
  exists tail,
    handed tr
    = map (fun j => withContextTimeout i ctx (now j)) (seq n (executions tr)) /\
    stream tr
    = flat_map (fun j => returned_error (call_outcome ctx now i j))
        (seq n (executions tr)) ++ tail /\
    (tail = [] \/
     (exists e, sel (n + executions tr)%nat = Done (Some e) /\ tail = [e]) \/
     (exists v,
        options_calm (inst_opts i) = true /\
        v <> VNil /\
        tail = [RunnablePanic v] /\
        (0 < executions tr)%nat /\
        (call_outcome ctx now i (n + executions tr - 1) = Panic v \/
         v = nilFuncCall /\
         (exists e, call_outcome ctx now i (n + executions tr - 1)
                    = Return (Some e)) /\
         (exists o, inst_opts i = Some o /\
                    backoff (restartable o) = None)))).
Proof.
  unfold runCh_from. intros H.
  destruct (loop ctx sel now fuel i n after) as [[[t j] w]|] eqn:Hl;
    [|discriminate].
  destruct (loop_forwards ctx sel now fuel _ _ _ _ _ _ Hl)
    as (k & tail & He & Hh & Hs & Ht & Hp).
  simpl in H.
  destruct w as [|v]; [|destruct (options_calm (inst_opts i)) eqn:Hc];
    inversion H; subst; clear H;
    rewrite executions_app, handed_app, stream_app.
  - simpl. rewrite Nat.add_0_r, !app_nil_r.
    exists tail. split; [exact Hh|]. split; [exact Hs|].
    destruct Ht as [Ht|(_ & e & Hsel & Ht)]; [left; exact Ht|].
    right. left. exists e. split; assumption.
  - destruct Ht as [Ht|(Hu & _)]; [|discriminate Hu].
    subst tail. rewrite app_nil_r in Hs.
    destruct (Hp v eq_refl) as (Hk & Hsrc).
    destruct v; simpl; rewrite Nat.add_0_r, !app_nil_r.
    + exists []. split; [exact Hh|]. rewrite app_nil_r.
      split; [exact Hs | left; reflexivity].
    + exists [RunnablePanic (VString s)]. split; [exact Hh|].
      rewrite Hs. split; [reflexivity|]. right. right.
      exists (VString s). repeat split; auto. discriminate.
    + exists [RunnablePanic (VInt n0)]. split; [exact Hh|].
      rewrite Hs. split; [reflexivity|]. right. right.
      exists (VInt n0). repeat split; auto. discriminate.
    + exists [RunnablePanic (VRuntimeError text)]. split; [exact Hh|].
      rewrite Hs. split; [reflexivity|]. right. right.
      exists (VRuntimeError text). repeat split; auto. discriminate.
  - simpl. rewrite Nat.add_0_r, !app_nil_r.
    exists []. split; [exact Hh|].
    destruct Ht as [Ht|(Hu & _)]; [|discriminate Hu].
    subst tail. split; [exact Hs | left; reflexivity].
Qed.

(** ** Passes that are the last *)

(** X6: a successful execution with recurrence off is the last one,
    whatever the restart options and the run limit: the run is counted,
    nothing is sent and the channel is closed. *)
Theorem success_without_recurrence_is_last (ctx : Context)
  (sel : nat -> selected) (now : nat -> Time) (fuel : nat) (i : Instance)
  (o : options) (n : nat) (after : Duration) :
  inst_opts i = Some o ->
  recur (recurring o) = false ->
  sel n = TimerFired ->
  call_outcome ctx now i n = Return None ->
  exists tr i',
    runCh_from ctx sel now (S fuel) i n after = Some (tr, i', Returns) /\
    executions tr = 1%nat /\
    stream tr = [] /\
    closes_last tr /\
    runs i' = incr64 (runs i).
Proof.
  unfold call_outcome. intros Ho Hrec Hs Hc.
  assert (Hr : exists i', rerun i None = (i', Return (false, 0)) /\
                          runs i' = incr64 (runs i)).
  { unfold rerun. rewrite Ho, Hrec.
    destruct (restartOnError (restartable o));
      destruct (negb _ && _); eexists; split; reflexivity. }
  destruct Hr as (i' & Hr & Hruns).
  exists ([EvWait after; EvCall n (withContextTimeout i ctx (now n));
           EvCancel (withContextTimeout i ctx (now n))] ++ [EvClose]), i'.
  unfold runCh_from. simpl. rewrite Hs, Hc, Hr. simpl.
  split; [reflexivity|]. split; [reflexivity|]. split; [reflexivity|].
  split; [|exact Hruns].
  apply (closes_last_intro
           [EvWait after; EvCall n (withContextTimeout i ctx (now n));
            EvCancel (withContextTimeout i ctx (now n))]).
  reflexivity.
Qed.

(** X7: a failed execution with restart-on-failure off is the last one,
    whatever the recurrence options: its error is sent and the channel is
    closed. *)
Theorem failure_without_restart_is_last (ctx : Context)
  (sel : nat -> selected) (now : nat -> Time) (fuel : nat) (i : Instance)
  (o : options) (n : nat) (after : Duration) (e : error) :
  inst_opts i = Some o ->
  restartOnError (restartable o) = false ->
  sel n = TimerFired ->
  call_outcome ctx now i n = Return (Some e) ->
  exists tr i',
    runCh_from ctx sel now (S fuel) i n after = Some (tr, i', Returns) /\
    executions tr = 1%nat /\
    stream tr = [e] /\
    closes_last tr /\
    runs i' = runs i /\
    failedRuns i' = incr64 (failedRuns i).
Proof.
  unfold call_outcome. intros Ho Hre Hs Hc.
  exists ([EvWait after; EvCall n (withContextTimeout i ctx (now n));
           EvCancel (withContextTimeout i ctx (now n)); EvSend e]
          ++ [EvClose]),
         (set_failedRuns (incr64 (failedRuns i)) i).
  unfold runCh_from. simpl. rewrite Hs, Hc. unfold rerun.
  rewrite Ho, Hre. simpl.
  split; [reflexivity|]. split; [reflexivity|]. split; [reflexivity|].
  split; [|split; reflexivity].
  apply (closes_last_intro
           [EvWait after; EvCall n (withContextTimeout i ctx (now n));
            EvCancel (withContextTimeout i ctx (now n)); EvSend e]).
  reflexivity.
Qed.

(** X8: an instance without options (a nil [opts]) runs its runnable once:
    whatever the call returns, its error is sent if there is one, the
    counters are left untouched and the channel is closed. *)
Theorem nil_options_run_once (ctx : Context) (sel : nat -> selected)
  (now : nat -> Time) (fuel : nat) (i : Instance) (err : option error) :
  inst_opts i = None ->
  sel 0%nat = TimerFired ->
  call_outcome ctx now i 0 = Return err ->
  exists tr,
    runCh ctx sel now (S fuel) i = Some (tr, i, Returns) /\
    executions tr = 1%nat /\
    handed tr = [WithCancel ctx] /\
    stream tr = returned_error (Return err) /\
    closes_last tr.
Proof.
  unfold call_outcome. intros Ho Hs Hc.
  exists (([EvWait 0; EvCall 0 (withContextTimeout i ctx (now 0%nat));
            EvCancel (withContextTimeout i ctx (now 0%nat))] ++ send_if err)
          ++ [EvClose]).
  unfold runCh, runCh_from. simpl. rewrite Hs, Hc. unfold rerun.
  rewrite Ho. simpl.
  split; [reflexivity|].
  rewrite executions_app, executions_send_if.
  split; [reflexivity|].
  split; [unfold withContextTimeout; rewrite Ho; destruct err; reflexivity|].
  split; [destruct err; reflexivity|].
  apply (closes_last_intro
           ([EvWait 0; EvCall 0 (withContextTimeout i ctx (now 0%nat));
             EvCancel (withContextTimeout i ctx (now 0%nat))] ++ send_if err)).
  simpl. apply no_close_send_if.
Qed.

(** X9: without panic containment (options without [Recover(true)], or no
    options), a panic of the runnable is not turned into an error: nothing
    is sent for it, the context of the call is released, the channel is
    closed, and the panic goes on and kills the goroutine, whatever the
    recurrence and restart options. *)
Theorem uncontained_panic_propagates (ctx : Context) (sel : nat -> selected)
  (now : nat -> Time) (fuel : nat) (i : Instance) (n : nat)
  (after : Duration) (V : value) :
  options_calm (inst_opts i) = false ->
  sel n = TimerFired ->
  call_outcome ctx now i n = Panic V ->
  exists tr,
    runCh_from ctx sel now (S fuel) i n after = Some (tr, i, Panics V) /\
    executions tr = 1%nat /\
    released tr = handed tr /\
    stream tr = [] /\
    closes_last tr.
Proof.
  unfold call_outcome. intros Hcalm Hs Hc.
  exists ([EvWait after; EvCall n (withContextTimeout i ctx (now n));
           EvCancel (withContextTimeout i ctx (now n))] ++ [EvClose]).
  unfold runCh_from. simpl. rewrite Hs, Hc, Hcalm.
  split; [reflexivity|]. split; [reflexivity|]. split; [reflexivity|].
  split; [reflexivity|].
  apply (closes_last_intro
           [EvWait after; EvCall n (withContextTimeout i ctx (now n));
            EvCancel (withContextTimeout i ctx (now n))]).
  reflexivity.
Qed.

(** ** Decisions that go on *)

(** [rerun] after a success under recurrence, when no run limit stops it:
    there is no limit, or the limit is not reached yet. *)
Lemma rerun_success_continues (i : Instance) (o : options) :
  inst_opts i = Some o ->
  recur (recurring o) = true ->
  runLimit (constrained o) = 0 \/
  (0 <= runs i /\ runs i + 1 < runLimit (constrained o) < uint64_modulus) ->
  exists i',
    rerun i None = (i', Return (true, period (recurring o))) /\
    runs i' = incr64 (runs i) /\
    inst_r i' = inst_r i /\ inst_opts i' = inst_opts i /\
    (restartOnError (restartable o) = true -> failedRuns i' = 0).
Proof.
  intros Ho Hrec Hlim. unfold rerun. rewrite Ho, Hrec.
  assert (Htest : forall j, runs j = incr64 (runs i) ->
            negb (runLimit (constrained o) =? 0)
            && (runLimit (constrained o) <=? runs j) = false).
  { intros j Hj. destruct Hlim as [H0|(Hr & Hl)].
    - rewrite H0. reflexivity.
    - rewrite Hj, (incr64_small (runs i)) by lia.
      replace (runLimit (constrained o) <=? runs i + 1) with false
        by (symmetry; apply Z.leb_gt; lia).
      apply andb_false_r. }
  destruct (restartOnError (restartable o)).
  - rewrite Htest by reflexivity. eexists. split; [reflexivity|].
    simpl. auto.
  - rewrite Htest by reflexivity. eexists. split; [reflexivity|].
    simpl. repeat split; auto. discriminate.
Qed.

(** [rerun] after a failure under restart with a backoff, when no restart
    limit stops it. *)
Lemma rerun_failure_continues (i : Instance) (o : options)
  (b : Z -> Duration) (e : error) :
  inst_opts i = Some o ->
  restartOnError (restartable o) = true ->
  backoff (restartable o) = Some b ->
  restartLimit (restartable o) = 0 \/
  (0 <= failedRuns i /\
   failedRuns i + 1 < restartLimit (restartable o) < uint64_modulus) ->
  rerun i (Some e)
  = (set_failedRuns (incr64 (failedRuns i)) i,
     Return (true, b (incr64 (failedRuns i)))).
Proof.
  intros Ho Hre Hb Hlim. unfold rerun. rewrite Ho, Hre, Hb. simpl.
  replace ((restartLimit (restartable o) =? 0)
           || (incr64 (failedRuns i) <? restartLimit (restartable o)))
    with true; [reflexivity|].
  symmetry. destruct Hlim as [H0|(Hf & Hl)].
  - rewrite H0. reflexivity.
  - rewrite incr64_small by lia. apply orb_true_iff. right.
    apply Z.ltb_lt. lia.
Qed.

(** ** Runs that never end *)

Lemma loop_unlimited_recurrence (ctx : Context) (sel : nat -> selected)
  (now : nat -> Time) (f : nat -> Context -> outcome (option error))
  (o : options) :
  recur (recurring o) = true ->
  runLimit (constrained o) = 0 ->
  (forall n c, f n c = Return None) ->
  (forall n, sel n = TimerFired) ->
  forall fuel i n after,
    inst_r i = Some f -> inst_opts i = Some o ->
    loop ctx sel now fuel i n after = None.
Proof.
  intros Hrec Hlim Hf Hsel.
  induction fuel as [|fuel IH]; intros i n after Hr Ho; simpl;
    [reflexivity|].
  rewrite Hsel, Hr. simpl. rewrite Hf.
  destruct (rerun_success_continues i o Ho Hrec (or_introl Hlim))
    as (i' & Hre & _ & Hr' & Ho' & _).
  rewrite Hre. rewrite (IH i' (S n) (period (recurring o))); [reflexivity| |];
    congruence.
Qed.

(** X10: under recurrence without a run limit, a runnable that always
    succeeds, with a parent context that is never done, is run for ever:
    whatever bound is put on the number of passes, [runCh] has not ended
    within it (and so has not closed the channel). *)
Theorem unlimited_recurrence_never_ends (ctx : Context)
  (sel : nat -> selected) (now : nat -> Time)
  (f : nat -> Context -> outcome (option error)) (o : options)
  (i : Instance) (fuel : nat) :
  inst_r i = Some f ->
  inst_opts i = Some o ->
  recur (recurring o) = true ->
  runLimit (constrained o) = 0 ->
  (forall n c, f n c = Return None) ->
  (forall n, sel n = TimerFired) ->
  runCh ctx sel now fuel i = None.
Proof.
  intros Hr Ho Hrec Hlim Hf Hsel. unfold runCh, runCh_from.
  rewrite (loop_unlimited_recurrence ctx sel now f o Hrec Hlim Hf Hsel
             fuel i O 0 Hr Ho).
  reflexivity.
Qed.

Lemma loop_unlimited_restart (ctx : Context) (sel : nat -> selected)
  (now : nat -> Time) (f : nat -> Context -> outcome (option error))
  (errs : nat -> error) (o : options) (b : Z -> Duration) :
  restartOnError (restartable o) = true ->
  restartLimit (restartable o) = 0 ->
  backoff (restartable o) = Some b ->
  (forall n c, f n c = Return (Some (errs n))) ->
  (forall n, sel n = TimerFired) ->
  forall fuel i n after,
    inst_r i = Some f -> inst_opts i = Some o ->
    loop ctx sel now fuel i n after = None.
Proof.
  intros Hre Hlim Hb Hf Hsel.
  induction fuel as [|fuel IH]; intros i n after Hr Ho; simpl;
    [reflexivity|].
  rewrite Hsel, Hr. simpl. rewrite Hf.
  rewrite (rerun_failure_continues i o b (errs n) Ho Hre Hb (or_introl Hlim)).
  rewrite (IH (set_failedRuns (incr64 (failedRuns i)) i) (S n)
             (b (incr64 (failedRuns i)))); [reflexivity| |]; assumption.
Qed.

(** X11: under restart-on-failure with a backoff and no restart limit, a
    runnable that always fails, with a parent context that is never done,
    is restarted for ever: whatever bound is put on the number of passes,
    [runCh] has not ended within it. *)
Theorem unlimited_restart_never_ends (ctx : Context)
  (sel : nat -> selected) (now : nat -> Time)
  (f : nat -> Context -> outcome (option error)) (errs : nat -> error)
  (o : options) (b : Z -> Duration) (i : Instance) (fuel : nat) :
  inst_r i = Some f ->
  inst_opts i = Some o ->
  restartOnError (restartable o) = true ->
  restartLimit (restartable o) = 0 ->
  backoff (restartable o) = Some b ->
  (forall n c, f n c = Return (Some (errs n))) ->
  (forall n, sel n = TimerFired) ->
  runCh ctx sel now fuel i = None.
Proof.
  intros Hr Ho Hre Hlim Hb Hf Hsel. unfold runCh, runCh_from.
  rewrite (loop_unlimited_restart ctx sel now f errs o b Hre Hlim Hb Hf Hsel
             fuel i O 0 Hr Ho).
  reflexivity.
Qed.

(** ** The delays between executions *)

Lemma waits_app (a b : list event) : waits (a ++ b) = waits a ++ waits b.
Proof.
  induction a as [|ev a IH]; simpl; [reflexivity|].
  destruct ev; simpl; rewrite IH; reflexivity.
Qed.

Lemma waits_send_if (e : option error) : waits (send_if e) = [].
Proof. destruct e; reflexivity. Qed.

Lemma loop_success_waits (ctx : Context) (sel : nat -> selected)
  (now : nat -> Time) (f : nat -> Context -> outcome (option error))
  (o : options) (m : nat) :
  recur (recurring o) = true ->
  runLimit (constrained o) < uint64_modulus ->
  (forall n c, f n c = Return None) ->
  forall fuel i n after,
    inst_r i = Some f ->
    inst_opts i = Some o ->
    0 <= runs i ->
    runs i + Z.of_nat (S m) = runLimit (constrained o) ->
    (forall j, (j <= m)%nat -> sel (n + j)%nat = TimerFired) ->
    (S m <= fuel)%nat ->
    exists tr i',
      loop ctx sel now fuel i n after = Some (tr, i', Returns) /\
      executions tr = S m /\
      waits tr = after :: repeat (period (recurring o)) m.
Proof.
  intros Hrec Hmax Hf.
  induction m as [|m IH]; intros fuel i n after Hr Ho Hruns Hlim Hsel Hfuel.
  - destruct fuel as [|fuel]; [lia|]. simpl.
    specialize (Hsel O (Nat.le_refl _)). rewrite Nat.add_0_r in Hsel.
    rewrite Hsel, Hr. simpl. rewrite Hf.
    destruct (rerun_success_at_limit i o Ho Hruns) as (i' & Hre & Hi');
      [lia | exact Hmax |].
    rewrite Hre. eexists _, i'. split; [reflexivity|]. split; reflexivity.
  - destruct fuel as [|fuel]; [lia|]. simpl.
    pose proof (Hsel O (Nat.le_0_l _)) as Hs0. rewrite Nat.add_0_r in Hs0.
    rewrite Hs0, Hr. simpl. rewrite Hf.
    destruct (rerun_success_below_limit i o Ho Hrec Hruns) as (i1 & Hre & Hi1);
      [lia|].
    rewrite Hre.
    pose proof (rerun_keeps i None) as (Hk1 & Hk2 & _).
    rewrite Hre in Hk1, Hk2. simpl in Hk1, Hk2.
    destruct (IH fuel i1 (S n) (period (recurring o)))
      as (tr & i' & Hl & He & Hw); try congruence; try lia.
    + intros j Hj. replace (S n + j)%nat with (n + S j)%nat by lia.
      apply Hsel. lia.
    + rewrite Hl. simpl. eexists _, i'. split; [reflexivity|].
      simpl. rewrite He, Hw. split; reflexivity.
Qed.

(** X12: under recurrence with the period [P] and a run limit [N > 0], a
    runnable that always succeeds, on a fresh instance whose parent context
    is not done during the run, is first run without delay and then [N - 1]
    more times, each time after the wait [P]. *)
Theorem recurrence_waits_period (ctx : Context) (sel : nat -> selected)
  (now : nat -> Time) (f : nat -> Context -> outcome (option error))
  (o : options) (i : Instance) (N : Z) (fuel : nat) :
  inst_r i = Some f ->
  inst_opts i = Some o ->
  runs i = 0 ->
  recur (recurring o) = true ->
  runLimit (constrained o) = N ->
  0 < N < uint64_modulus ->
  (forall n c, f n c = Return None) ->
  (forall n, (n < Z.to_nat N)%nat -> sel n = TimerFired) ->
  (Z.to_nat N <= fuel)%nat ->
  exists tr i',
    runCh ctx sel now fuel i = Some (tr, i', Returns) /\
    executions tr = Z.to_nat N /\
    waits tr = 0 :: repeat (period (recurring o)) (Z.to_nat N - 1).
Proof.
  intros Hr Ho Hruns Hrec HN Hpos Hf Hsel Hfuel.
  destruct (Z.to_nat N) as [|m] eqn:Hm; [lia|].
  destruct (loop_success_waits ctx sel now f o m Hrec) with
    (fuel := fuel) (i := i) (n := O) (after := 0)
    as (tr & i' & Hl & He & Hw); auto; try lia.
  - intros j Hj. apply Hsel. simpl. lia.
  - exists (tr ++ [EvClose]), i'.
    unfold runCh, runCh_from. rewrite Hl. simpl.
    rewrite executions_app, waits_app, He, Hw. simpl.
    rewrite Nat.sub_0_r, app_nil_r.
    repeat split; auto; lia.
Qed.

Lemma loop_failure_waits (ctx : Context) (sel : nat -> selected)
  (now : nat -> Time) (f : nat -> Context -> outcome (option error))
  (errs : nat -> error) (o : options) (b : Z -> Duration) (m : nat) :
  restartOnError (restartable o) = true ->
  restartLimit (restartable o) < uint64_modulus ->
  backoff (restartable o) = Some b ->
  (forall n c, f n c = Return (Some (errs n))) ->
  forall fuel i n after,
    inst_r i = Some f ->
    inst_opts i = Some o ->
    0 <= failedRuns i ->
    failedRuns i + Z.of_nat (S m) = restartLimit (restartable o) ->
    (forall j, (j <= m)%nat -> sel (n + j)%nat = TimerFired) ->
    (S m <= fuel)%nat ->
    exists tr i',
      loop ctx sel now fuel i n after = Some (tr, i', Returns) /\
      executions tr = S m /\
      waits tr
      = after :: map (fun j => b (failedRuns i + Z.of_nat j)) (seq 1 m).
Proof.
  intros Hre Hmax Hb Hf.
  induction m as [|m IH]; intros fuel i n after Hr Ho Hfr Hlim Hsel Hfuel.
  - destruct fuel as [|fuel]; [lia|]. simpl.
    specialize (Hsel O (Nat.le_refl _)). rewrite Nat.add_0_r in Hsel.
    rewrite Hsel, Hr. simpl. rewrite Hf.
    destruct (rerun_failure_at_limit i o (errs n) Ho Hfr) as (i' & Hrr & Hi');
      [lia | exact Hmax |].
    rewrite Hrr. eexists _, i'. split; [reflexivity|]. split; reflexivity.
  - destruct fuel as [|fuel]; [lia|]. simpl.
    pose proof (Hsel O (Nat.le_0_l _)) as Hs0. rewrite Nat.add_0_r in Hs0.
    rewrite Hs0, Hr. simpl. rewrite Hf.
    destruct (rerun_failure_below_limit i o b (errs n) Ho Hre Hb Hfr)
      as (i1 & Hrr & Hi1); [lia|].
    rewrite Hrr.
    pose proof (rerun_keeps i (Some (errs n))) as (Hk1 & Hk2 & _).
    rewrite Hrr in Hk1, Hk2. simpl in Hk1, Hk2.
    destruct (IH fuel i1 (S n) (b (failedRuns i + 1)))
      as (tr & i' & Hl & He & Hw); try congruence; try lia.
    + intros j Hj. replace (S n + j)%nat with (n + S j)%nat by lia.
      apply Hsel. lia.
    + rewrite Hl. simpl. eexists _, i'. split; [reflexivity|].
      simpl. rewrite He, Hw. split; [reflexivity|].
      do 2 f_equal.
      rewrite <- (seq_shift m 1), map_map. apply map_ext.
      intros j. rewrite Hi1. f_equal. lia.
Qed.

(** X13: under restart-on-failure with the backoff [b] and a restart limit
    [N > 0], a runnable that always fails, on a fresh instance whose parent
    context is not done during the run, is first run without delay, and
    its restart after the [k]-th consecutive failure waits [b(k)]: the
    waits are [0, b(1), ..., b(N-1)]; no wait follows the last failure. *)
Theorem restart_waits_backoff (ctx : Context) (sel : nat -> selected)
  (now : nat -> Time) (f : nat -> Context -> outcome (option error))
  (errs : nat -> error) (o : options) (b : Z -> Duration) (i : Instance)
  (N : Z) (fuel : nat) :
  inst_r i = Some f ->
  inst_opts i = Some o ->
  failedRuns i = 0 ->
  restartOnError (restartable o) = true ->
  restartLimit (restartable o) = N ->
  0 < N < uint64_modulus ->
  backoff (restartable o) = Some b ->
  (forall n c, f n c = Return (Some (errs n))) ->
  (forall n, (n < Z.to_nat N)%nat -> sel n = TimerFired) ->
  (Z.to_nat N <= fuel)%nat ->
  exists tr i',
    runCh ctx sel now fuel i = Some (tr, i', Returns) /\
    executions tr = Z.to_nat N /\
    waits tr = 0 :: map (fun k => b (Z.of_nat k)) (seq 1 (Z.to_nat N - 1)).
Proof.
  intros Hr Ho Hfr Hre HN Hpos Hb Hf Hsel Hfuel.
  destruct (Z.to_nat N) as [|m] eqn:Hm; [lia|].
  destruct (loop_failure_waits ctx sel now f errs o b m Hre) with
    (fuel := fuel) (i := i) (n := O) (after := 0)
    as (tr & i' & Hl & He & Hw); auto; try lia.
  - intros j Hj. apply Hsel. simpl. lia.
  - exists (tr ++ [EvClose]), i'.
    unfold runCh, runCh_from. rewrite Hl. simpl.
    rewrite executions_app, waits_app, He, Hw, Hfr. simpl.
    rewrite Nat.sub_0_r, app_nil_r.
    repeat split; auto; lia.
Qed.

(** ** Recurrence and restart together *)

Lemma loop_recurring_until_error (ctx : Context) (sel : nat -> selected)
  (now : nat -> Time) (f : nat -> Context -> outcome (option error))
  (o : options) (e : error) (m : nat) :
  recur (recurring o) = true ->
  restartOnError (restartable o) = false ->
  forall fuel i n after,
    inst_r i = Some f ->
    inst_opts i = Some o ->
    runLimit (constrained o) = 0 \/
    (0 <= runs i /\
     runs i + Z.of_nat m < runLimit (constrained o) < uint64_modulus) ->
    (forall j c, (j < m)%nat -> f (n + j)%nat c = Return None) ->
    (forall c, f (n + m)%nat c = Return (Some e)) ->
    (forall j, (j <= m)%nat -> sel (n + j)%nat = TimerFired) ->
    (S m <= fuel)%nat ->
    exists tr i',
      loop ctx sel now fuel i n after = Some (tr, i', Returns) /\
      executions tr = S m /\ stream tr = [e].
Proof.
  intros Hrec Hre.
  induction m as [|m IH]; intros fuel i n after Hr Ho Hlim Hok Hfail Hsel Hfuel.
  - destruct fuel as [|fuel]; [lia|]. simpl.
    specialize (Hsel O (Nat.le_refl _)). rewrite Nat.add_0_r in Hsel, Hfail.
    rewrite Hsel, Hr. simpl. rewrite Hfail. unfold rerun.
    rewrite Ho, Hre. eexists _, _. split; [reflexivity|].
    split; reflexivity.
  - destruct fuel as [|fuel]; [lia|]. simpl.
    pose proof (Hsel O (Nat.le_0_l _)) as Hs0. rewrite Nat.add_0_r in Hs0.
    rewrite Hs0, Hr. simpl.
    pose proof (Hok O (withContextTimeout i ctx (now n)) (Nat.lt_0_succ m))
      as Hc. rewrite Nat.add_0_r in Hc. rewrite Hc.
    destruct (rerun_success_continues i o Ho Hrec)
      as (i1 & Hrr & Hruns & Hr1 & Ho1 & _).
    { destruct Hlim as [H0|(H1 & H2)]; [left; exact H0 | right; lia]. }
    rewrite Hrr.
    destruct (IH fuel i1 (S n) (period (recurring o)))
      as (tr & i' & Hl & He & Hst); try congruence; try lia.
    + destruct Hlim as [H0|(H1 & H2)]; [left; exact H0 | right].
      rewrite Hruns, incr64_small by lia. lia.
    + intros j c Hj. replace (S n + j)%nat with (n + S j)%nat by lia.
      apply Hok. lia.
    + intros c. replace (S n + m)%nat with (n + S m)%nat by lia.
      apply Hfail.
    + intros j Hj. replace (S n + j)%nat with (n + S j)%nat by lia.
      apply Hsel. lia.
    + rewrite Hl. simpl. eexists _, i'. split; [reflexivity|].
      simpl. rewrite He, Hst. split; reflexivity.
Qed.

(** X14: under recurrence with restart-on-failure off, a runnable that
    succeeds [k] times and then fails is not run again after the failure:
    with a run limit that is absent or above [k], and a parent context
    that is not done meanwhile, there are exactly [k + 1] executions, the
    only error sent is that of the failure, and the channel is closed. *)
Theorem recurrence_stops_at_first_failure (ctx : Context)
  (sel : nat -> selected) (now : nat -> Time)
  (f : nat -> Context -> outcome (option error)) (o : options)
  (i : Instance) (e : error) (k fuel : nat) :
  inst_r i = Some f ->
  inst_opts i = Some o ->
  runs i = 0 ->
  recur (recurring o) = true ->
  restartOnError (restartable o) = false ->
  runLimit (constrained o) = 0 \/
  Z.of_nat k < runLimit (constrained o) < uint64_modulus ->
  (forall j c, (j < k)%nat -> f j c = Return None) ->
  (forall c, f k c = Return (Some e)) ->
  (forall j, (j <= k)%nat -> sel j = TimerFired) ->
  (S k <= fuel)%nat ->
  exists tr i',
    runCh ctx sel now fuel i = Some (tr, i', Returns) /\
    executions tr = S k /\
    stream tr = [e] /\
    closes_last tr.
Proof.
  intros Hr Ho Hruns Hrec Hre Hlim Hok Hfail Hsel Hfuel.
  destruct (loop_recurring_until_error ctx sel now f o e k Hrec Hre)
    with (fuel := fuel) (i := i) (n := O) (after := 0)
    as (tr & i' & Hl & He & Hst); auto.
  - destruct Hlim as [H0|H1]; [left; exact H0 | right; lia].
  - exists (tr ++ [EvClose]), i'.
    unfold runCh, runCh_from. rewrite Hl. simpl.
    rewrite executions_app, stream_app, He, Hst. simpl.
    split; [reflexivity|]. split; [lia|]. split; [reflexivity|].
    apply closes_last_intro. apply (loop_no_close _ _ _ _ _ _ _ _ _ _ Hl).
Qed.

Lemma loop_alternating (ctx : Context) (sel : nat -> selected)
  (now : nat -> Time) (errs : nat -> error) (o : options)
  (b : Z -> Duration) (m : nat) :
  recur (recurring o) = true ->
  restartOnError (restartable o) = true ->
  backoff (restartable o) = Some b ->
  restartLimit (restartable o) = 0 \/
  1 < restartLimit (restartable o) < uint64_modulus ->
  runLimit (constrained o) < uint64_modulus ->
  forall fuel i n after,
    inst_r i = Some (fails_on_odd_calls errs) ->
    inst_opts i = Some o ->
    Nat.even n = true ->
    0 <= runs i ->
    runs i + Z.of_nat (S m) = runLimit (constrained o) ->
    (forall j, (j <= 2 * m)%nat -> sel (n + j)%nat = TimerFired) ->
    (2 * m + 1 <= fuel)%nat ->
    exists tr i',
      loop ctx sel now fuel i n after = Some (tr, i', Returns) /\
      executions tr = (2 * m + 1)%nat /\
      stream tr = map (fun j => errs (n + 1 + 2 * j)%nat) (seq 0 m) /\
      failedRuns i' = 0.
Proof.
  intros Hrec Hre Hb Hrl Hmax.
  induction m as [|m IH]; intros fuel i n after Hr Ho Hev Hruns Hlim Hsel Hfuel.
  - destruct fuel as [|fuel]; [lia|]. simpl.
    specialize (Hsel O (Nat.le_refl _)). rewrite Nat.add_0_r in Hsel.
    rewrite Hsel, Hr. simpl. unfold fails_on_odd_calls.
    rewrite <- Nat.negb_even, Hev. simpl.
    assert (Hrr : rerun i None
                  = (set_failedRuns 0 (set_runs (incr64 (runs i)) i),
                     Return (false, 0))).
    { unfold rerun. rewrite Ho, Hre. simpl.
      rewrite incr64_small by lia.
      replace (runLimit (constrained o) =? 0) with false
        by (symmetry; apply Z.eqb_neq; lia).
      replace (runLimit (constrained o) <=? runs i + 1) with true
        by (symmetry; apply Z.leb_le; lia).
      reflexivity. }
    rewrite Hrr. eexists _, _. split; [reflexivity|].
    repeat split; reflexivity.
  - destruct fuel as [|[|fuel]]; [lia|lia|].
    cbn [loop].
    pose proof (Hsel O (Nat.le_0_l _)) as Hs0. rewrite Nat.add_0_r in Hs0.
    pose proof (Hsel 1%nat) as Hs1. rewrite Nat.add_1_r in Hs1.
    rewrite Hs0. unfold execute at 1. rewrite Hr. cbn [Runnable_run].
    unfold fails_on_odd_calls at 1. rewrite <- Nat.negb_even, Hev.
    cbn [negb].
    destruct (rerun_success_continues i o Ho Hrec)
      as (i1 & Hrr & Hruns1 & Hr1 & Ho1 & Hf1); [right; lia|].
    rewrite Hrr. rewrite Hs1 by lia.
    unfold execute at 1. rewrite Hr1, Hr. cbn [Runnable_run].
    unfold fails_on_odd_calls at 1.
    rewrite Nat.odd_succ, Hev.
    rewrite Ho in Ho1.
    rewrite (rerun_failure_continues i1 o b (errs (S n)) Ho1 Hre Hb).
    2:{ destruct Hrl as [H0|H1]; [left; exact H0 | right].
        rewrite (Hf1 Hre). lia. }
    rewrite (Hf1 Hre).
    destruct (IH fuel (set_failedRuns (incr64 0) i1) (S (S n)) (b (incr64 0)))
      as (tr & i' & Hl & He & Hst & Hfin).
    + simpl. congruence.
    + exact Ho1.
    + simpl. exact Hev.
    + simpl. rewrite Hruns1, incr64_small by lia. lia.
    + simpl. rewrite Hruns1, incr64_small by lia. lia.
    + intros j Hj. replace (S (S n) + j)%nat with (n + S (S j))%nat by lia.
      apply Hsel. lia.
    + lia.
    + rewrite Hl. cbn [prepend]. eexists _, i'. split; [reflexivity|].
      rewrite !executions_app, !stream_app. simpl.
      rewrite He, Hst. split; [lia|]. split; [|exact Hfin].
      f_equal; [f_equal; lia|].
      rewrite <- (seq_shift m 0), map_map. apply map_ext.
      intros j. f_equal. lia.
Qed.

(** X15: the restart limit bounds consecutive failures, not failures in
    total.  Under recurrence with a run limit [M > 0] and restart-on-failure
    with a backoff and a restart limit that is absent or above one, a
    runnable that fails on every other call is restarted after each of its
    failures, however many they are: the run makes [2M - 1] executions,
    sends the [M - 1] errors in order, and ends on the run limit with the
    failure counter at zero. *)
Theorem successes_renew_restart_budget (ctx : Context)
  (sel : nat -> selected) (now : nat -> Time) (errs : nat -> error)
  (o : options) (b : Z -> Duration) (i : Instance) (M : Z) (fuel : nat) :
  inst_r i = Some (fails_on_odd_calls errs) ->
  inst_opts i = Some o ->
  runs i = 0 ->
  recur (recurring o) = true ->
  restartOnError (restartable o) = true ->
  backoff (restartable o) = Some b ->
  restartLimit (restartable o) = 0 \/
  1 < restartLimit (restartable o) < uint64_modulus ->
  runLimit (constrained o) = M ->
  0 < M < uint64_modulus ->
  (forall j, (j < 2 * Z.to_nat M - 1)%nat -> sel j = TimerFired) ->
  (2 * Z.to_nat M - 1 <= fuel)%nat ->
  exists tr i',
    runCh ctx sel now fuel i = Some (tr, i', Returns) /\
    executions tr = (2 * Z.to_nat M - 1)%nat /\
    stream tr = map (fun j => errs (2 * j + 1)%nat) (seq 0 (Z.to_nat M - 1)) /\
    closes_last tr /\
    failedRuns i' = 0.
Proof.
  intros Hr Ho Hruns Hrec Hre Hb Hrl HM Hpos Hsel Hfuel.
  destruct (Z.to_nat M) as [|m] eqn:Hm; [lia|].
  destruct (loop_alternating ctx sel now errs o b m Hrec Hre Hb Hrl)
    with (fuel := fuel) (i := i) (n := O) (after := 0)
    as (tr & i' & Hl & He & Hst & Hfin); auto; try lia.
  - intros j Hj. apply Hsel. simpl. lia.
  - exists (tr ++ [EvClose]), i'.
    unfold runCh, runCh_from. rewrite Hl. simpl.
    rewrite executions_app, stream_app, He, Hst. simpl.
    rewrite !Nat.sub_0_r, app_nil_r.
    split; [reflexivity|]. split; [lia|].
    split; [apply map_ext; intros j; f_equal; lia|].
    split; [|exact Hfin].
    apply closes_last_intro. apply (loop_no_close _ _ _ _ _ _ _ _ _ _ Hl).
Qed.

(** ** The channel of [Run] *)

Lemma apply_options_errChanSize (os : list Option) :
  Forall (fun opt => exists k, HasKind opt k /\ k <> KChanBuffer) os ->
  forall o, errChanSize (apply_options os o) = errChanSize o.
Proof.
  unfold apply_options.
  induction 1 as [|opt os (k & Hk & Hne) _ IH]; intros o; simpl;
    [reflexivity|].
  rewrite IH. destruct Hk; try reflexivity.
  exfalso. apply Hne. reflexivity.
Qed.

(** X16: when the runtime accepts the size, the channel the first [Run]
    returns has the buffer size of the last [WithChanBuffer] given to
    [New], whatever options of other kinds come before or after it, and is
    unbuffered when no [WithChanBuffer] was given; when the runtime refuses
    the size of the last [WithChanBuffer], the first [Run] panics and
    returns no channel. *)
Theorem Run_channel_capacity (maxChanMem : Z) (r : Runnable)
  (os os' rest : list Option) (sz : Z) (ctx : Context) :
  Forall (fun opt => exists k, HasKind opt k /\ k <> KChanBuffer) os' ->
  Forall (fun opt => exists k, HasKind opt k /\ k <> KChanBuffer) rest ->
  0 <= maxChanMem ->
  (0 <= sz /\ 16 * sz < uint64_modulus /\ 16 * sz <= maxChanMem ->
   snd (fst (Run maxChanMem (New r (os ++ WithChanBuffer sz :: os')) ctx))
   = Return (Some {| chan_cap := sz |})) /\
  (sz < 0 \/ uint64_modulus <= 16 * sz \/ maxChanMem < 16 * sz ->
   snd (fst (Run maxChanMem (New r (os ++ WithChanBuffer sz :: os')) ctx))
   = Panic makechanPanic) /\
  snd (fst (Run maxChanMem (New r rest) ctx))
  = Return (Some {| chan_cap := 0 |}).
Proof.
  intros Hos' Hrest Hmax.
  assert (Hsz : chanSize (New r (os ++ WithChanBuffer sz :: os')) = sz).
  { unfold chanSize, New. simpl.
    unfold apply_options. rewrite fold_left_app. simpl.
    fold (apply_options os new_options).
    fold (apply_options os'
            (WithChanBuffer sz (apply_options os new_options))).
    rewrite (apply_options_errChanSize os' Hos'). reflexivity. }
  assert (Hrest0 : chanSize (New r rest) = 0).
  { unfold chanSize, New. simpl.
    rewrite (apply_options_errChanSize rest Hrest). reflexivity. }
  unfold Run, run. simpl once. cbn iota.
  rewrite Hsz, Hrest0. split; [|split].
  - intros (H0 & H1 & H2).
    rewrite (makechan_accepts maxChanMem sz H0 H1 H2). reflexivity.
  - intros H. rewrite (makechan_refuses maxChanMem sz H). reflexivity.
  - rewrite (makechan_accepts maxChanMem 0); [reflexivity | | |];
      unfold uint64_modulus; lia.
Qed.

(** ** The further properties at concrete inputs *)

(** The side conditions left at a concrete input: an equation that
    computes, a bound, or a fact about the first calls. *)
Ltac side_condition :=
  first
    [ reflexivity
    | unfold uint64_modulus; lia
    | simpl; lia
    | right; simpl; unfold uint64_modulus; lia
    | let j := fresh "j" in
      let c := fresh "c" in
      let Hj := fresh "Hj" in
      intros j c Hj;
      destruct j as [|[|j]]; [reflexivity | reflexivity | lia] ].

Lemma New_later_option_overrides_witness :
  New (expectations [Return None])
    ([Recur true] ++ Timeout 1000000000 :: Timeout 3000000000 :: [])
  = New (expectations [Return None])
      ([Recur true] ++ Timeout 3000000000 :: []).
Proof.
  apply (New_later_option_overrides (expectations [Return None])
           (Timeout 1000000000) (Timeout 3000000000) KTimeout
           [Recur true] []);
    constructor.
Defined.

Lemma New_options_of_different_kinds_commute_witness :
  New (expectations [Return None])
    ([Recur true] ++ RestartLimit 3 None :: Restart true :: [Recover true])
  = New (expectations [Return None])
      ([Recur true] ++ Restart true :: RestartLimit 3 None :: [Recover true]).
Proof.
  apply (New_options_of_different_kinds_commute (expectations [Return None])
           (RestartLimit 3 None) (Restart true) KRestartLimit KRestart
           [Recur true] [Recover true]);
    [constructor | constructor | discriminate].
Defined.

Lemma rerun_never_faults_after_RestartLimit_witness :
  exists ra,
    snd (rerun (New (expectations [Return (Some (testError 1))])
                  [Restart true; RestartLimit 0 None])
           (Some (testError 1)))
    = Return ra.
Proof.
  apply (rerun_never_faults_after_RestartLimit
           (expectations [Return (Some (testError 1))])
           [Restart true; RestartLimit 0 None] 0 None
           (New (expectations [Return (Some (testError 1))])
              [Restart true; RestartLimit 0 None])
           (Some (testError 1))).
  - constructor; [apply PO_Restart|].
    constructor; [apply PO_RestartLimit; unfold uint64_modulus; lia|].
    constructor.
  - right. left. reflexivity.
  - reflexivity.
Defined.

Lemma runCh_closes_exactly_once_witness :
  closes_last
    [EvWait 0; EvCall 0 (WithCancel (Caller None));
     EvCancel (WithCancel (Caller None));
     EvSend (RunnablePanic (VString "panic message")); EvClose].
Proof.
  apply (runCh_closes_exactly_once (Caller None) never_done test_clock 1
           (New (expectations [Panic (VString "panic message")])
              [Recover true])
           0%nat 0 _
           (New (expectations [Panic (VString "panic message")])
              [Recover true])
           Returns).
  reflexivity.
Defined.

Lemma stream_forwards_returned_errors_witness :
  exists tail,
    handed fails_then_panics_events
    = map (fun j =>
             withContextTimeout fails_then_panics (Caller None) (test_clock j))
        (seq 0 (executions fails_then_panics_events)) /\
    stream fails_then_panics_events
    = flat_map
        (fun j =>
           returned_error
             (call_outcome (Caller None) test_clock fails_then_panics j))
        (seq 0 (executions fails_then_panics_events)) ++ tail /\
    (tail = [] \/
     (exists e,
        never_done (0 + executions fails_then_panics_events)%nat
        = Done (Some e) /\ tail = [e]) \/
     (exists v,
        options_calm (inst_opts fails_then_panics) = true /\
        v <> VNil /\
        tail = [RunnablePanic v] /\
        (0 < executions fails_then_panics_events)%nat /\
        (call_outcome (Caller None) test_clock fails_then_panics
           (0 + executions fails_then_panics_events - 1) = Panic v \/
         v = nilFuncCall /\
         (exists e,
            call_outcome (Caller None) test_clock fails_then_panics
              (0 + executions fails_then_panics_events - 1)
            = Return (Some e)) /\
         (exists o, inst_opts fails_then_panics = Some o /\
                    backoff (restartable o) = None)))).
Proof.
  apply (stream_forwards_returned_errors (Caller None) never_done test_clock
           5 fails_then_panics 0%nat 0 fails_then_panics_events
           (set_failedRuns 1 fails_then_panics) Returns).
  reflexivity.
Defined.

Lemma success_without_recurrence_is_last_witness :
  exists tr i',
    runCh_from (Caller None) never_done test_clock 1
      (New (expectations [Return None])
         [Restart true; RestartLimit 3 None; RunLimit 5])
      0%nat 0
    = Some (tr, i', Returns) /\
    executions tr = 1%nat /\
    stream tr = [] /\
    closes_last tr /\
    runs i' = incr64 0.
Proof.
  apply (success_without_recurrence_is_last (Caller None) never_done
           test_clock 0
           (New (expectations [Return None])
              [Restart true; RestartLimit 3 None; RunLimit 5])
           (apply_options [Restart true; RestartLimit 3 None; RunLimit 5]
              new_options)
           0%nat 0);
    reflexivity.
Defined.

Lemma failure_without_restart_is_last_witness :
  exists tr i',
    runCh_from (Caller None) never_done test_clock 1
      (New (expectations [Return (Some (testError 1))])
         [Recur true; RunLimit 5])
      0%nat 0
    = Some (tr, i', Returns) /\
    executions tr = 1%nat /\
    stream tr = [testError 1] /\
    closes_last tr /\
    runs i' = 0 /\
    failedRuns i' = incr64 0.
Proof.
  apply (failure_without_restart_is_last (Caller None) never_done
           test_clock 0
           (New (expectations [Return (Some (testError 1))])
              [Recur true; RunLimit 5])
           (apply_options [Recur true; RunLimit 5] new_options)
           0%nat 0 (testError 1));
    reflexivity.
Defined.

Lemma nil_options_run_once_witness :
  exists tr,
    runCh (Caller None) never_done test_clock 1
      (literal (expectations [Return (Some (testError 1))]) None)
    = Some (tr, literal (expectations [Return (Some (testError 1))]) None,
            Returns) /\
    executions tr = 1%nat /\
    handed tr = [WithCancel (Caller None)] /\
    stream tr = returned_error (Return (Some (testError 1))) /\
    closes_last tr.
Proof.
  apply (nil_options_run_once (Caller None) never_done test_clock 0
           (literal (expectations [Return (Some (testError 1))]) None)
           (Some (testError 1)));
    reflexivity.
Defined.

Lemma uncontained_panic_propagates_witness :
  exists tr,
    runCh_from (Caller None) never_done test_clock 1
      (New (expectations [Panic (VString "panic message")])
         [Recur true; Restart true])
      0%nat 0
    = Some (tr,
            New (expectations [Panic (VString "panic message")])
              [Recur true; Restart true],
            Panics (VString "panic message")) /\
    executions tr = 1%nat /\
    released tr = handed tr /\
    stream tr = [] /\
    closes_last tr.
Proof.
  apply (uncontained_panic_propagates (Caller None) never_done test_clock 0
           (New (expectations [Panic (VString "panic message")])
              [Recur true; Restart true])
           0%nat 0 (VString "panic message"));
    reflexivity.
Defined.

Lemma unlimited_recurrence_never_ends_witness :
  runCh (Caller None) never_done test_clock 25
    (New (Some (fun _ _ => Return None)) [Recur true; Period 114000000])
  = None.
Proof.
  apply (unlimited_recurrence_never_ends (Caller None) never_done test_clock
           (fun _ _ => Return None)
           (apply_options [Recur true; Period 114000000] new_options)
           (New (Some (fun _ _ => Return None)) [Recur true; Period 114000000])
           25);
    side_condition.
Defined.

Lemma unlimited_restart_never_ends_witness :
  runCh (Caller None) never_done test_clock 25
    (New (Some (fun n _ => Return (Some (testError (Z.of_nat n)))))
       [Restart true; RestartLimit 0 None])
  = None.
Proof.
  apply (unlimited_restart_never_ends (Caller None) never_done test_clock
           (fun n _ => Return (Some (testError (Z.of_nat n))))
           (fun n => testError (Z.of_nat n))
           (apply_options [Restart true; RestartLimit 0 None] new_options)
           (fun _ => 0)
           (New (Some (fun n _ => Return (Some (testError (Z.of_nat n)))))
              [Restart true; RestartLimit 0 None])
           25);
    side_condition.
Defined.

Lemma recurrence_waits_period_witness :
  exists tr i',
    runCh (Caller None) never_done test_clock 3
      (New (Some (fun _ _ => Return None))
         [Recur true; Period 114000000; RunLimit 3])
    = Some (tr, i', Returns) /\
    executions tr = Z.to_nat 3 /\
    waits tr
    = 0 :: repeat
             (period
                (recurring
                   (apply_options [Recur true; Period 114000000; RunLimit 3]
                      new_options)))
             (Z.to_nat 3 - 1).
Proof.
  apply (recurrence_waits_period (Caller None) never_done test_clock
           (fun _ _ => Return None)
           (apply_options [Recur true; Period 114000000; RunLimit 3]
              new_options)
           (New (Some (fun _ _ => Return None))
              [Recur true; Period 114000000; RunLimit 3])
           3 3);
    side_condition.
Defined.

Lemma restart_waits_backoff_witness :
  exists tr i',
    runCh (Caller None) never_done test_clock 4
      (New (Some (fun n _ => Return (Some (testError (Z.of_nat n)))))
         [Restart true;
          RestartLimit 4 (Some (fun n => n * 287000000))])
    = Some (tr, i', Returns) /\
    executions tr = Z.to_nat 4 /\
    waits tr
    = 0 :: map (fun k => Z.of_nat k * 287000000) (seq 1 (Z.to_nat 4 - 1)).
Proof.
  apply (restart_waits_backoff (Caller None) never_done test_clock
           (fun n _ => Return (Some (testError (Z.of_nat n))))
           (fun n => testError (Z.of_nat n))
           (apply_options
              [Restart true; RestartLimit 4 (Some (fun n => n * 287000000))]
              new_options)
           (fun n => n * 287000000)
           (New (Some (fun n _ => Return (Some (testError (Z.of_nat n)))))
              [Restart true;
               RestartLimit 4 (Some (fun n => n * 287000000))])
           4 4);
    side_condition.
Defined.

Lemma recurrence_stops_at_first_failure_witness :
  exists tr i',
    runCh (Caller None) never_done test_clock 3
      (New (expectations [Return None; Return None;
                          Return (Some (testError 1))])
         [Recur true; RunLimit 5])
    = Some (tr, i', Returns) /\
    executions tr = 3%nat /\
    stream tr = [testError 1] /\
    closes_last tr.
Proof.
  apply (recurrence_stops_at_first_failure (Caller None) never_done
           test_clock
           (fun n _ => nth n [Return None; Return None;
                              Return (Some (testError 1))]
                         (Panic (VString "unexpected call")))
           (apply_options [Recur true; RunLimit 5] new_options)
           (New (expectations [Return None; Return None;
                               Return (Some (testError 1))])
              [Recur true; RunLimit 5])
           (testError 1) 2 3);
    side_condition.
Defined.

Lemma successes_renew_restart_budget_witness :
  exists tr i',
    runCh (Caller None) never_done test_clock 9
      (New (Some (fails_on_odd_calls (fun n => testError (Z.of_nat n))))
         [Recur true; RunLimit 5; Restart true; RestartLimit 2 None])
    = Some (tr, i', Returns) /\
    executions tr = (2 * Z.to_nat 5 - 1)%nat /\
    stream tr
    = map (fun j => testError (Z.of_nat (2 * j + 1)))
        (seq 0 (Z.to_nat 5 - 1)) /\
    closes_last tr /\
    failedRuns i' = 0.
Proof.
  apply (successes_renew_restart_budget (Caller None) never_done test_clock
           (fun n => testError (Z.of_nat n))
           (apply_options
              [Recur true; RunLimit 5; Restart true; RestartLimit 2 None]
              new_options)
           (fun _ => 0)
           (New (Some (fails_on_odd_calls (fun n => testError (Z.of_nat n))))
              [Recur true; RunLimit 5; Restart true; RestartLimit 2 None])
           5 9);
    side_condition.
Defined.

Lemma Run_channel_capacity_witness :
  snd (fst (Run (2 ^ 40)
              (New (expectations [Return None])
                 ([WithChanBuffer 7; Recur true]
                  ++ WithChanBuffer 2 :: [RunLimit 2; Restart true]))
              (Caller None)))
  = Return (Some {| chan_cap := 2 |}) /\
  snd (fst (Run (2 ^ 40)
              (New (expectations [Return None]) [Recur true; RunLimit 2])
              (Caller None)))
  = Return (Some {| chan_cap := 0 |}).
Proof.
  destruct (Run_channel_capacity (2 ^ 40) (expectations [Return None])
              [WithChanBuffer 7; Recur true] [RunLimit 2; Restart true]
              [Recur true; RunLimit 2] 2 (Caller None))
    as (Hfits & _ & Hnone).
  - constructor; [exists KRunLimit; split; [constructor | discriminate]|].
    constructor; [exists KRestart; split; [constructor | discriminate]|].
    constructor.
  - constructor; [exists KRecur; split; [constructor | discriminate]|].
    constructor; [exists KRunLimit; split; [constructor | discriminate]|].
    constructor.
  - vm_compute. congruence.
  - split; [|exact Hnone].
    apply Hfits. repeat split; vm_compute; congruence.
Defined.
